(** * extract_stores.py: a shallow embedding and its properties

    The program reads store URLs from a sitemap, fetches every page, pulls a
    flat record out of the HTML with regular expressions, sorts the records
    and prints them as JSON.  This development embeds

    - Python [str] values as lists of Unicode code points,
    - the fragment of [re] the program uses (a backtracking matcher with
      greedy and lazy repetition, groups and [$]) together with
      [re.search], [re.findall] and [re.sub],
    - [extract_text], the body of [get_store_details], the sitemap reader
      and [main], with exceptions as an error monad and the diagnostic
      channel as an explicit list of messages,

    and proves the properties of the specification against them. *)

From Stdlib Require Import String Ascii.
From Stdlib Require Import List NArith Arith Bool Lia.
From Stdlib Require Import Permutation Sorted.
Import ListNotations.

Set Implicit Arguments.

(** ** Python strings *)

(** A Python [str] is a sequence of code points. *)
Definition char := N.
Definition str := list char.

(** ASCII literals of the source, as code points. *)
Definition lit (s : string) : str :=
  List.map N_of_ascii (list_ascii_of_string s).
Arguments lit s%_string.

Definition quote : char := 34%N.
Definition newline : char := 10%N.
Definition space : char := 32%N.
Definition slash : char := 47%N.

(** [str.isspace] on one code point; [\s] of a [str] pattern and
    [str.strip()] both use this set. *)
Definition py_isspace (c : char) : bool :=
  ((9 <=? c) && (c <=? 13) || (28 <=? c) && (c <=? 32)
   || (c =? 133) || (c =? 160) || (c =? 5760)
   || (8192 <=? c) && (c <=? 8202)
   || (c =? 8232) || (c =? 8233) || (c =? 8239) || (c =? 8287)
   || (c =? 12288))%N.

Fixpoint lstrip (s : str) : str :=
  match s with
  | c :: s' => if py_isspace c then lstrip s' else s
  | [] => []
  end.

Definition rstrip (s : str) : str := rev (lstrip (rev s)).

(** [s.strip()] *)
Definition strip (s : str) : str := rstrip (lstrip s).

(** ** Exceptions *)

Inductive exn :=
| URLError | HTTPError | ValueError | IndexError | TypeError
| AttributeError | ParseError | OSError.

Inductive res (A : Type) :=
| Ok (a : A)
| Raise (e : exn).
Arguments Ok {A} a.
Arguments Raise {A} e.

Definition bind {A B} (c : res A) (f : A -> res B) : res B :=
  match c with
  | Ok a => f a
  | Raise e => Raise e
  end.

Notation "x <- c ;; k" := (bind c (fun x => k))
  (at level 61, c at next level, right associativity).

(** ** Regular expressions *)

Inductive atom :=
| Chr (c : char)       (* a literal character *)
| AnyChr               (* [.] under re.DOTALL *)
| NotChr (c : char)    (* [[^c]] *)
| Space                (* [\s] *)
| Digit.               (* [\d] *)

Inductive greed := Greedy | Lazy.

Inductive regex :=
| Eps
| One (a : atom)
| Rep (g : greed) (a : atom)     (* [a*] and [a*?] *)
| Seq (r1 r2 : regex)
| Group (r : regex)
| Eol.                           (* [$] *)

(** [a+] and [a+?] *)
Definition Plus (g : greed) (a : atom) : regex := Seq (One a) (Rep g a).

(** a literal run of characters *)
Fixpoint chars (s : str) : regex :=
  match s with
  | [] => Eps
  | c :: s' => Seq (One (Chr c)) (chars s')
  end.

Fixpoint seq (rs : list regex) : regex :=
  match rs with
  | [] => Eps
  | r :: rs' => Seq r (seq rs')
  end.

(** number of capturing groups *)
Fixpoint ngroups (r : regex) : nat :=
  match r with
  | Seq r1 r2 => ngroups r1 + ngroups r2
  | Group r => S (ngroups r)
  | _ => 0
  end.

(** [$] without re.MULTILINE: at the end, or before a final newline. *)
Definition at_eol (s : str) : bool :=
  match s with
  | [] => true
  | [c] => (c =? newline)%N
  | _ => false
  end.

Inductive piece :=
| Copy (c : char)          (* a character outside every match *)
| Hit (gs : list str).     (* a match: group 0 first, then groups 1.. *)

(** ** An interpreter instance for running the model

    The ASCII part of the Unicode tables and decimal literals of [float]:
    enough to evaluate the model on concrete pages. *)

Definition ascii_decimal (c : char) : bool := ((48 <=? c) && (c <=? 57))%N.

Definition ascii_upper (s : str) : str :=
  map (fun c => if ((97 <=? c) && (c <=? 122))%N then (c - 32)%N else c) s.

(** Digits with at most one point: the mantissa and the number of digits
    after the point. *)
Fixpoint dec_scan (s : str) (seen_dot : bool) (m : N) (scale digits : nat)
  : option (N * nat) :=
  match s with
  | [] => if digits =? 0 then None else Some (m, scale)
  | c :: s' =>
      if ascii_decimal c
      then dec_scan s' seen_dot (10 * m + (c - 48))%N
                    (if seen_dot then S scale else scale) (S digits)
      else if (c =? 46)%N && negb seen_dot
           then dec_scan s' true m scale digits
           else None
  end.

(** A decimal number: negative?, mantissa, scale; [(true, 3387, 2)] is
    -33.87. *)
Definition decimal : Type := bool * N * nat.

Definition dec_float (s : str) : option decimal :=
  match s with
  | 45%N :: t =>
      option_map (fun '(m, e) => (true, m, e)) (dec_scan t false 0%N 0 0)
  | _ => option_map (fun '(m, e) => (false, m, e)) (dec_scan s false 0%N 0 0)
  end.

Section Python.

(** Unicode tables and builtins of the interpreter. *)
Variable uni_decimal : char -> bool.     (* category Nd, what [\d] matches *)
Variable upper : str -> str.             (* [str.upper] *)
Variable F : Type.                       (* Python floats *)
Variable py_float : str -> option F.     (* [float(s)]; [None] is ValueError *)

Definition atom_ok (a : atom) (c : char) : bool :=
  match a with
  | Chr x => (c =? x)%N
  | AnyChr => true
  | NotChr x => negb (c =? x)%N
  | Space => py_isspace c
  | Digit => uni_decimal c
  end.

Section Repetition.
Context {A : Type} (a : atom) (k : str -> option A).

(** [a*?]: leave as early as the rest of the pattern allows *)
Fixpoint rep_lazy (s : str) : option A :=
  match k s with
  | Some x => Some x
  | None =>
      match s with
      | c :: s' => if atom_ok a c then rep_lazy s' else None
      | [] => None
      end
  end.

(** [a*]: take as many as possible, give back one at a time *)
Fixpoint rep_greedy (s : str) : option A :=
  match s with
  | c :: s' =>
      if atom_ok a c
      then match rep_greedy s' with
           | Some x => Some x
           | None => k s
           end
      else k s
  | [] => k s
  end.
End Repetition.

(** The backtracking matcher: [run r s caps k] matches [r] at the front of
    [s] and hands what is left, with the groups closed so far, to [k]; the
    first alternative in priority order whose continuation succeeds wins. *)
Fixpoint run {A : Type} (r : regex) (s : str) (caps : list str)
    (k : str -> list str -> option A) : option A :=
  match r with
  | Eps => k s caps
  | One a =>
      match s with
      | c :: s' => if atom_ok a c then k s' caps else None
      | [] => None
      end
  | Rep Lazy a => rep_lazy a (fun s' => k s' caps) s
  | Rep Greedy a => rep_greedy a (fun s' => k s' caps) s
  | Seq r1 r2 => run r1 s caps (fun s' caps' => run r2 s' caps' k)
  | Group r1 =>
      run r1 s caps
        (fun s' caps' => k s' (caps' ++ [firstn (length s - length s') s]))
  | Eol => if at_eol s then k s caps else None
  end.

(** One attempt at the front of [s]: the groups (group 0 first) and the text
    after the match.  [must_advance] refuses an empty match, as the scanner
    asks right after an empty match at the same place. *)
Definition match_at (r : regex) (must_advance : bool) (s : str)
  : option (list str * str) :=
  run r s []
    (fun s' caps =>
       if must_advance && (length s' =? length s)
       then None
       else Some (firstn (length s - length s') s :: caps, s')).

(** [re.search(r, s, re.DOTALL)]: the leftmost position with a match. *)
Fixpoint search (r : regex) (s : str) : option (list str) :=
  match match_at r false s with
  | Some (gs, _) => Some gs
  | None =>
      match s with
      | _ :: s' => search r s'
      | [] => None
      end
  end.

(** The iteration shared by [re.findall] and [re.sub]: non-overlapping
    matches from left to right.  [skip] counts the characters of the current
    match still to pass. *)
Fixpoint scan (r : regex) (skip : nat) (s : str) : list piece :=
  match skip with
  | S n =>
      match s with
      | _ :: s' => scan r n s'
      | [] => []
      end
  | O =>
      match match_at r false s with
      | Some (gs, s1) =>
          match length s - length s1 with
          | S n =>
              Hit gs :: match s with
                        | _ :: s' => scan r n s'
                        | [] => []
                        end
          | O =>
              Hit gs ::
              match s with
              | [] => []
              | c :: s' =>
                  match match_at r true s with
                  | Some (gs2, s2) =>
                      Hit gs2 :: scan r (length s - length s2 - 1) s'
                  | None => Copy c :: scan r 0 s'
                  end
              end
          end
      | None =>
          match s with
          | c :: s' => Copy c :: scan r 0 s'
          | [] => []
          end
      end
  end.

(** [re.sub(r, repl, s)] for a replacement without group references *)
Definition sub (r : regex) (repl : str) (s : str) : str :=
  flat_map (fun p => match p with Copy c => [c] | Hit _ => repl end)
           (scan r 0 s).

(** [re.findall(r, s, re.DOTALL)] for a pattern with two groups: the list of
    pairs (group 1, group 2). *)
Definition findall2 (r : regex) (s : str) : list (str * str) :=
  flat_map (fun p => match p with
                     | Copy _ => []
                     | Hit gs => [(nth 1 gs [], nth 2 gs [])]
                     end)
           (scan r 0 s).


(** ** The patterns of the source *)

(** [<span itemprop="name">(.*?)</span>] *)
Definition span_re (name : str) : regex :=
  seq [chars (lit "<span itemprop=" ++ [quote] ++ name ++ [quote] ++ lit ">");
       Group (Rep Lazy AnyChr);
       chars (lit "</span>")].

(** The lead-in of the heading: [Target], a space, the three code points
    U+00E2 U+20AC U+201C of the source literal, a space. *)
Definition lead_in : str :=
  lit "Target " ++ [226; 8364; 8220]%N ++ lit " ".

(** [<h4 class="store-heading".*?>Target ... (.*?)</h4>] *)
Definition heading_re : regex :=
  seq [chars (lit "<h4 class=" ++ [quote] ++ lit "store-heading" ++ [quote]);
       Rep Lazy AnyChr;
       chars (lit ">" ++ lead_in);
       Group (Rep Lazy AnyChr);
       chars (lit "</h4>")].

Definition phone_re : regex := span_re (lit "telephone").

(** [data-lat="([^"]+)"] and [data-lng="([^"]+)"] *)
Definition attr_re (name : str) : regex :=
  seq [chars (name ++ lit "=" ++ [quote]);
       Group (Plus Greedy (NotChr quote));
       chars [quote]].
Definition lat_re : regex := attr_re (lit "data-lat").
Definition lng_re : regex := attr_re (lit "data-lng").

(** [<address itemprop="address".*?>(.*?)</address>] *)
Definition address_re : regex :=
  seq [chars (lit "<address itemprop=" ++ [quote] ++ lit "address" ++ [quote]);
       Rep Lazy AnyChr;
       chars (lit ">");
       Group (Rep Lazy AnyChr);
       chars (lit "</address>")].

Definition street_re : regex := span_re (lit "streetAddress").
Definition locality_re : regex := span_re (lit "addressLocality").
Definition region_re : regex := span_re (lit "addressRegion").
Definition postal_re : regex := span_re (lit "postalCode").

(** [.*] *)
Definition any_re : regex := Rep Greedy AnyChr.

(** [<div class="store-hours">(.*?)</div>] *)
Definition hours_re : regex :=
  seq [chars (lit "<div class=" ++ [quote] ++ lit "store-hours" ++ [quote]
              ++ lit ">");
       Group (Rep Lazy AnyChr);
       chars (lit "</div>")].

(** [<dt>(.*?)</dt>\s*<dd>(.*?)</dd>] *)
Definition pair_re : regex :=
  seq [chars (lit "<dt>"); Group (Rep Lazy AnyChr); chars (lit "</dt>");
       Rep Greedy Space;
       chars (lit "<dd>"); Group (Rep Lazy AnyChr); chars (lit "</dd>")].

(** [/(\d+)$] *)
Definition id_re : regex :=
  seq [One (Chr slash); Group (Plus Greedy Digit); Eol].

(** [<[^<]+?>] *)
Definition tag_re : regex :=
  seq [One (Chr 60%N); Plus Lazy (NotChr 60%N); One (Chr 62%N)].

(** [\s+] *)
Definition ws_re : regex := Plus Greedy Space.

(** ** extract_text *)

(** [match.group(n)]: IndexError when the pattern has no such group. *)
Definition match_group (gs : list str) (n : nat) : res str :=
  match nth_error gs n with
  | Some g => Ok g
  | None => Raise IndexError
  end.

(** The cleaning of lines 44-45: tags out, trim, runs of whitespace to one
    space. *)
Definition clean_text (result : str) : str :=
  sub ws_re [space] (strip (sub tag_re [] result)).

(** Lines 41-46: what [extract_text] does with the captured group. *)
Definition finish (clean : bool) (g : str) : str :=
  let result := strip g in
  if clean then clean_text result else result.

Definition extract_text (pattern : regex) (text : str) (group : nat)
    (clean : bool) : res (option str) :=
  match search pattern text with
  | None => Ok None
  | Some gs =>
      g <- match_group gs group ;;
      Ok (Some (finish clean g))
  end.

(** ** Python values and the record *)

#[local] Unset Elimination Schemes.
Inductive pyval :=
| VNone
| VStr (s : str)
| VFloat (x : F)
| VList (l : list pyval)
| VDict (d : list (string * pyval)).
#[local] Set Elimination Schemes.

(** A dict, in insertion order. *)
Definition dict := list (string * pyval).

Fixpoint lookup (d : dict) (key : string) : option pyval :=
  match d with
  | [] => None
  | (k, v) :: d' => if String.eqb k key then Some v else lookup d' key
  end.

(** [d.get(key, default)] *)
Definition dict_get (d : dict) (key : string) (default : pyval) : pyval :=
  match lookup d key with
  | Some v => v
  | None => default
  end.

Definition of_opt (x : option str) : pyval :=
  match x with
  | Some s => VStr s
  | None => VNone
  end.

(** Truth value of a [str] or [None]. *)
Definition truthy (x : option str) : bool :=
  match x with
  | Some (_ :: _) => true
  | _ => false
  end.

(** [float(x) if x else None] *)
Definition to_float (x : option str) : res pyval :=
  match x with
  | Some (c :: s) =>
      match py_float (c :: s) with
      | Some v => Ok (VFloat v)
      | None => Raise ValueError
      end
  | _ => Ok VNone
  end.

(** ** get_store_details *)

(** Lines 57-65. *)
Definition address_fields (address_block_html : option str)
  : res (option str * option str * option str * option str) :=
  match address_block_html with
  | Some (c :: b) =>
      let block := c :: b in
      street_address_html <- extract_text street_re block 1 false ;;
      address1 <- match street_address_html with
                  | Some (c1 :: t) => extract_text any_re (c1 :: t) 1 true
                  | _ => Ok None
                  end ;;
      city <- extract_text locality_re block 1 true ;;
      state <- extract_text region_re block 1 true ;;
      postcode <- extract_text postal_re block 1 true ;;
      Ok (address1, city, state, postcode)
  | _ => Ok (None, None, None, None)
  end.

Definition trading_hour (day hours : str) : pyval :=
  VDict [("__typename"%string, VStr (lit "TradingHour"));
         ("hours"%string, VStr (strip hours));
         ("weekDay"%string, VStr (upper (strip day)))].

(** Lines 68-78: the loop appends one entry per pair. *)
Definition trading_hours (html : str) : res (list pyval) :=
  hours_block_html <- extract_text hours_re html 1 false ;;
  match hours_block_html with
  | Some (c :: b) =>
      let hour_pairs := findall2 pair_re (c :: b) in
      Ok (fold_left (fun trading_hours_list '(day, hours) =>
                       trading_hours_list ++ [trading_hour day hours])
                    hour_pairs [])
  | _ => Ok []
  end.

(** Lines 81-82. *)
Definition location_id (url : str) : res (option str) :=
  match search id_re url with
  | Some gs => g <- match_group gs 1 ;; Ok (Some g)
  | None => Ok None
  end.

(** Lines 87-102: the dict literal. *)
Definition store_data (location_id public_name phone_number address1 city
    state postcode : option str) (latitude longitude : pyval)
    (trading_hours_list : list pyval) (url : str) : dict :=
  [("locationId"%string, of_opt location_id);
   ("publicName"%string, of_opt public_name);
   ("phoneNumber"%string, of_opt phone_number);
   ("address1"%string, of_opt address1);
   ("address2"%string, VNone);
   ("address3"%string, VNone);
   ("city"%string, of_opt city);
   ("state"%string, of_opt state);
   ("postcode"%string, of_opt postcode);
   ("latitude"%string, latitude);
   ("longitude"%string, longitude);
   ("tradingHours"%string, VList trading_hours_list);
   ("typename"%string, VStr (lit "Location"));
   ("url"%string, VStr url)].

(** Lines 49-104: the body of the [try], once the page is in [html]. *)
Definition get_store_details_body (html url : str) : res (option dict) :=
  public_name <- extract_text heading_re html 1 true ;;
  phone_number <- extract_text phone_re html 1 true ;;
  latitude <- extract_text lat_re html 1 true ;;
  longitude <- extract_text lng_re html 1 true ;;
  address_block_html <- extract_text address_re html 1 false ;;
  address <- address_fields address_block_html ;;
  let '(address1, city, state, postcode) := address in
  trading_hours_list <- trading_hours html ;;
  location_id <- location_id url ;;
  if negb (truthy public_name) then Ok None
  else
    lat <- to_float latitude ;;
    lng <- to_float longitude ;;
    Ok (Some (store_data location_id public_name phone_number address1 city
                         state postcode lat lng trading_hours_list url)).

(** ** The driver *)

(** Lines on the diagnostic channel. *)
Inductive diag :=
| DFetching (url : option str)
| DErrFetching (url : option str) (e : exn)
| DErrProcessing (url : option str) (e : exn)
| DErrSitemap (e : exn)
| DNoSitemap
| DFound (n : nat)
| DItem (i n : nat) (name : pyval)
| DItemFailed (i n : nat)
| DExtracted (n : nat)
| DFailed (n : nat)
| DFailedItem (i : nat) (url : option str)
| DTraceback (e : exn).

(** What a run does, in order. *)
Inductive event :=
| Err (d : diag)              (* a line on stderr *)
| Get (url : str)             (* [urlopen(url, timeout=10)] *)
| Sleep                       (* [time.sleep(0.1)] *)
| Out (stores : list dict).   (* [print(json.dumps(stores, indent=2))] *)

(** The outside of the program.  [sitemap_locs] is what [ET.parse],
    [getroot] and [findall] give for the sitemap file: the text of every
    [loc] element ([None] for an element without text) or the exception
    raised.  [urlopen] is the page as decoded text, or the exception raised
    while opening or reading. *)
Record world := {
  sitemap_exists : bool;
  sitemap_locs : res (list (option str));
  urlopen : str -> res str
}.

Variable env : world.
Variable verbose : bool.

(** Lines 14-25. *)
Definition extract_urls_from_sitemap : list (option str) * list event :=
  match sitemap_locs env with
  | Ok urls => (urls, [])
  | Raise e => ([], [Err (DErrSitemap e)])
  end.

Definition is_fetch_error (e : exn) : bool :=
  match e with
  | URLError | HTTPError => true
  | _ => false
  end.

(** Lines 27-111.  A [loc] without text gives [urlopen(None)], which raises
    AttributeError before any request is made. *)
Definition get_store_details (url : option str) : option dict * list event :=
  let t := if verbose then [Err (DFetching url)] else [] in
  match url with
  | Some u =>
      match html <- urlopen env u ;; get_store_details_body html u with
      | Ok store_data => (store_data, t ++ [Get u])
      | Raise e =>
          (None,
           t ++ [Get u;
                 Err (if is_fetch_error e then DErrFetching url e
                      else DErrProcessing url e)])
      end
  | None => (None, t ++ [Err (DErrProcessing url AttributeError)])
  end.

(** Lines 134-146, from index [i] on. *)
Fixpoint scrape (total i : nat) (urls : list (option str))
    (all_stores : list dict) (errors : list (nat * option str))
  : list dict * list (nat * option str) * list event :=
  match urls with
  | [] => (all_stores, errors, [])
  | url :: urls' =>
      let '(store_data, t) := get_store_details url in
      match store_data with
      | Some (kv :: d) =>
          let store := kv :: d in
          let t1 := if verbose
                    then [Err (DItem i total
                                 (dict_get store "publicName"
                                           (VStr (lit "Unknown"))))]
                    else [] in
          let '(stores', errors', t2) :=
            scrape total (S i) urls' (all_stores ++ [store]) errors in
          (stores', errors', t ++ t1 ++ Sleep :: t2)
      | _ =>
          let t1 := if verbose then [Err (DItemFailed i total)] else [] in
          let '(stores', errors', t2) :=
            scrape total (S i) urls' all_stores (errors ++ [(i, url)]) in
          (stores', errors', t ++ t1 ++ Sleep :: t2)
      end
  end.

(** Code-point order of two strings. *)
Fixpoint str_ltb (a b : str) : bool :=
  match a, b with
  | _, [] => false
  | [], _ :: _ => true
  | x :: a', y :: b' => ((x <? y) || (x =? y) && str_ltb a' b')%N
  end.

(** [a < b] on the values a sort key takes here, a [str] or [None]: two
    strings compare, anything else with [None] is a TypeError. *)
Definition key_lt (a b : pyval) : res bool :=
  match a, b with
  | VStr x, VStr y => Ok (str_ltb x y)
  | _, _ => Raise TypeError
  end.

Section Sorted.
Context {A : Type} (key : A -> pyval).

(** [x] goes before the first element with a greater key. *)
Fixpoint insert_by (x : A) (l : list A) : res (list A) :=
  match l with
  | [] => Ok [x]
  | y :: l' =>
      b <- key_lt (key x) (key y) ;;
      if b then Ok (x :: y :: l')
      else (r <- insert_by x l' ;; Ok (y :: r))
  end.

(** [sorted(l, key=key)]: a stable sort that compares keys with [<]; an
    exception of a comparison ends it.  With two or more elements every
    element takes part in a comparison. *)
Definition py_sorted (l : list A) : res (list A) :=
  fold_left (fun acc x => sorted_so_far <- acc ;; insert_by x sorted_so_far)
            l (Ok []).

(** One round of [py_sorted]. *)
Definition sort_step (acc : res (list A)) (x : A) : res (list A) :=
  sorted_so_far <- acc ;; insert_by x sorted_so_far.
End Sorted.

(** Line 155. *)
Definition sort_stores (all_stores : list dict) : res (list dict) :=
  py_sorted (fun x => dict_get x "locationId" (VStr [])) all_stores.

(** Lines 113-156: exit status and trace of a run. *)
Definition main : nat * list event :=
  if negb (sitemap_exists env) then (1, [Err DNoSitemap])
  else
    let '(urls, t1) := extract_urls_from_sitemap in
    let t2 := if verbose then [Err (DFound (length urls))] else [] in
    let '(all_stores, errors, t3) := scrape (length urls) 1 urls [] [] in
    let t4 :=
      Err (DExtracted (length all_stores)) ::
      match errors with
      | [] => []
      | _ :: _ =>
          Err (DFailed (length errors)) ::
          map (fun '(idx, url) => Err (DFailedItem idx url)) errors
      end in
    match sort_stores all_stores with
    | Ok all_stores_sorted =>
        (0, t1 ++ t2 ++ t3 ++ t4 ++ [Out all_stores_sorted])
    | Raise e => (1, t1 ++ t2 ++ t3 ++ t4 ++ [Err (DTraceback e)])
    end.

(** ** Vocabulary of the properties *)

Fixpoint starts_with (x s : str) : bool :=
  match x, s with
  | [], _ => true
  | c :: x', d :: s' => (c =? d)%N && starts_with x' s'
  | _ :: _, [] => false
  end.

Fixpoint occursb (x s : str) : bool :=
  starts_with x s ||
  match s with
  | _ :: s' => occursb x s'
  | [] => false
  end.

(** [x] is a substring of [s]. *)
Definition occurs (x s : str) : Prop := occursb x s = true.

(** What [extract_text] returns for a pattern with a group 1. *)
Definition capture (pattern : regex) (text : str) (clean : bool)
  : option str :=
  match search pattern text with
  | Some gs => Some (finish clean (nth 1 gs []))
  | None => None
  end.

(** The street address span inside the address block, markup intact. *)
Definition street_address (html : str) : option str :=
  match capture address_re html false with
  | Some (c :: b) => capture street_re (c :: b) false
  | _ => None
  end.

(** The day/hours pairs inside the hours container. *)
Definition hour_pairs (html : str) : list (str * str) :=
  match capture hours_re html false with
  | Some (c :: b) => findall2 pair_re (c :: b)
  | _ => []
  end.

(** The locationId the pattern finds in the URL. *)
Definition url_id (url : str) : option str :=
  match search id_re url with
  | Some gs => Some (nth 1 gs [])
  | None => None
  end.

(** The entries of the hours container, one per pair. *)
Definition hour_entries (html : str) : list pyval :=
  map (fun '(day, hours) => trading_hour day hours) (hour_pairs html).

(** What the caller of the extraction sees: a record, or nothing when the
    body returned [None] or raised. *)
Definition extract (html url : str) : option dict :=
  match get_store_details_body html url with
  | Ok store => store
  | Raise _ => None
  end.

(** A coordinate whose text is there and is not a number. *)
Definition unparseable (x : option str) : Prop :=
  exists c s, x = Some (c :: s) /\ py_float (c :: s) = None.

(** A coordinate that is absent, empty or a number. *)
Definition parseable (x : option str) : Prop :=
  forall c s, x = Some (c :: s) -> py_float (c :: s) <> None.

(** Every whitespace character is one space, and no two are adjacent. *)
Fixpoint single_spaced (s : str) : bool :=
  match s with
  | [] => true
  | c :: s' =>
      (if py_isspace c
       then (c =? space)%N &&
            match s' with
            | c' :: _ => negb (py_isspace c')
            | [] => true
            end
       else true) && single_spaced s'
  end.

Definition starts_clean (s : str) : bool :=
  match s with
  | c :: _ => negb (py_isspace c)
  | [] => true
  end.

(** A clean string: no tag, single inner spaces, nothing to trim. *)
Definition is_clean (s : str) : Prop :=
  search tag_re s = None /\
  single_spaced s = true /\
  starts_clean s = true /\ starts_clean (rev s) = true.

(** Every character of [d] is a digit for [\d]. *)
Definition digits (d : str) : Prop :=
  Forall (fun c => uni_decimal c = true) d.

Definition ends_in_newline (url : str) : bool :=
  match rev url with
  | c :: _ => (c =? newline)%N
  | [] => false
  end.

(** The longest suffix of [s] made of characters that satisfy [p]. *)
Fixpoint trailing_run (p : char -> bool) (s : str) : str :=
  match s with
  | [] => []
  | c :: s' =>
      let t := trailing_run p s' in
      if (length t =? length s') && p c then c :: t else t
  end.

(** The locationId as the specification words it: the trailing run of
    digits of the URL, null when the URL does not end in digits. *)
Definition claimed_location_id (url : str) : option str :=
  match trailing_run uni_decimal url with
  | [] => None
  | d => Some d
  end.

(** The locationId of a record as a string, null as the empty string. *)
Definition id_key (d : dict) : str :=
  match lookup d "locationId" with
  | Some (VStr s) => s
  | _ => []
  end.

(** The sort as the specification words it: by locationId as a string,
    null as the empty string. *)
Definition claimed_sort_stores (all_stores : list dict) : res (list dict) :=
  py_sorted (fun x => VStr (id_key x)) all_stores.

(** The key of [x] is a string. *)
Definition str_keyed {A : Type} (key : A -> pyval) (x : A) : bool :=
  match key x with
  | VStr _ => true
  | _ => false
  end.


(** The keys of a record, in the order of the dict literal. *)
Definition record_keys : list string :=
  ["locationId"; "publicName"; "phoneNumber"; "address1"; "address2";
   "address3"; "city"; "state"; "postcode"; "latitude"; "longitude";
   "tradingHours"; "typename"; "url"]%string.


(** The URLs of the sitemap that are strings. *)
Definition url_strings (urls : list (option str)) : list str :=
  flat_map (fun url => match url with Some x => [x] | None => [] end) urls.

(** The records a list of URLs gives, in the order of the URLs. *)
Definition successes (urls : list (option str)) : list dict :=
  flat_map (fun url => match fst (get_store_details url) with
                       | Some (kv :: d) => [kv :: d]
                       | _ => []
                       end) urls.

(** The URLs that give no record, with their positions counted from [i]. *)
Fixpoint failures (i : nat) (urls : list (option str))
  : list (nat * option str) :=
  match urls with
  | [] => []
  | url :: urls' =>
      match fst (get_store_details url) with
      | Some (_ :: _) => failures (S i) urls'
      | _ => (i, url) :: failures (S i) urls'
      end
  end.

(** The requests of a trace, its pauses and what it prints on stdout. *)
Definition requests (t : list event) : list str :=
  flat_map (fun ev => match ev with Get url => [url] | _ => [] end) t.

Definition pauses (t : list event) : nat :=
  length (filter (fun ev => match ev with Sleep => true | _ => false end) t).

Definition printed (t : list event) : list (list dict) :=
  flat_map (fun ev => match ev with Out stores => [stores] | _ => [] end) t.

(** [a] does not come after [b] in code-point order. *)
Definition str_le (a b : str) : Prop := str_ltb b a = false.

(** Records in the order of their locationId strings. *)
Definition id_le (x y : dict) : Prop := str_le (id_key x) (id_key y).

(** The locationId of the record is a string. *)
Definition has_id (x : dict) : bool :=
  str_keyed (fun x => dict_get x "locationId" (VStr [])) x.


(** Both keys are strings, and the first does not come after the second. *)
Definition key_le {A : Type} (key : A -> pyval) (x y : A) : Prop :=
  exists a b, key x = VStr a /\ key y = VStr b /\ str_le a b.

(** ** Sample pages *)

Definition heading (name : str) : str :=
  lit "<h4 class=" ++ [quote] ++ lit "store-heading" ++ [quote] ++ lit ">"
  ++ lead_in ++ name ++ lit "</h4>".

Definition attr (name value : str) : str :=
  name ++ lit "=" ++ [quote] ++ value ++ [quote].

Definition span (name body : str) : str :=
  lit "<span itemprop=" ++ [quote] ++ name ++ [quote] ++ lit ">" ++ body
  ++ lit "</span>".

Definition address_block (body : str) : str :=
  lit "<address itemprop=" ++ [quote] ++ lit "address" ++ [quote] ++ lit ">"
  ++ body ++ lit "</address>".

Definition hours_block (body : str) : str :=
  lit "<div class=" ++ [quote] ++ lit "store-hours" ++ [quote] ++ lit ">"
  ++ body ++ lit "</div>".

Definition url_42 : str := lit "https://example.com/stores/00042".

(** a heading and nothing else *)
Definition page_bondi : str := heading (lit "Bondi").

(** a latitude that is not a number *)
Definition page_bad_lat : str :=
  heading (lit "Bondi") ++ lit "<div " ++ attr (lit "data-lat") (lit "abc")
  ++ lit "></div>".

(** a latitude and no longitude *)
Definition page_lat_only : str :=
  heading (lit "Bondi") ++ lit "<div " ++ attr (lit "data-lat") (lit "-33.87")
  ++ lit "></div>".

(** a longitude and no latitude *)
Definition page_lng_only : str :=
  heading (lit "Bondi") ++ lit "<div " ++ attr (lit "data-lng") (lit "151.2")
  ++ lit "></div>".

(** a city span outside any address block *)
Definition page_no_block : str :=
  heading (lit "Bondi") ++ span (lit "addressLocality") (lit "Sydney").

(** a heading whose text is markup and blanks only *)
Definition page_empty_name : str := heading (lit "<b> </b>").

(** a street address inside an address block *)
Definition page_street : str :=
  heading (lit "Bondi")
  ++ address_block (span (lit "streetAddress") (lit "1 High St")).

(** two days in the hours container *)
Definition page_hours : str :=
  heading (lit "Bondi")
  ++ hours_block (lit "<dl><dt>Mon</dt> <dd> 9-5 </dd><dt>Tue</dt><dd>10-4</dd></dl>").

(** A record with a heading only, for the locationId [id]. *)
Definition sample_store (id : option str) : dict :=
  store_data id (Some (lit "Bondi")) None None None None None VNone VNone []
             (lit "https://example.com/stores/").

(** A sitemap of one URL whose page is [html]. *)
Definition one_page (html : str) : world :=
  {| sitemap_exists := true;
     sitemap_locs := Ok [Some url_42];
     urlopen := fun _ => Ok html |}.

(** A sitemap of three URLs, the second without a number at its end; every
    page has a heading. *)
Definition three_stores : world :=
  {| sitemap_exists := true;
     sitemap_locs := Ok [Some (lit "https://example.com/stores/0005");
                         Some (lit "https://example.com/stores/");
                         Some (lit "https://example.com/stores/0002")];
     urlopen := fun _ => Ok page_bondi |}.

(** ** The matcher *)

Lemma firstn_app_sub (w s : str) :
  firstn (length (w ++ s) - length s) (w ++ s) = w.
Proof.
  rewrite length_app.
  replace (length w + length s - length s) with (length w + 0) by lia.
  rewrite firstn_app_2. simpl. apply app_nil_r.
Qed.

Lemma rep_lazy_sound {A} (a : atom) (k : str -> option A) s x :
  rep_lazy a k s = Some x ->
  exists w s', s = w ++ s' /\ Forall (fun c => atom_ok a c = true) w
               /\ k s' = Some x.
Proof.
  induction s as [|c s IH]; simpl.
  - destruct (k []) eqn:E; [|discriminate].
    intros [= <-]. exists [], []. auto.
  - destruct (k (c :: s)) eqn:E.
    + intros [= <-]. exists [], (c :: s). auto.
    + destruct (atom_ok a c) eqn:Ha; [|discriminate].
      intros H. destruct (IH H) as (w & s' & -> & Hw & Hk).
      exists (c :: w), s'. auto.
Qed.

Lemma rep_greedy_sound {A} (a : atom) (k : str -> option A) s x :
  rep_greedy a k s = Some x ->
  exists w s', s = w ++ s' /\ Forall (fun c => atom_ok a c = true) w
               /\ k s' = Some x.
Proof.
  induction s as [|c s IH]; simpl.
  - intros H. exists [], []. auto.
  - destruct (atom_ok a c) eqn:Ha.
    + destruct (rep_greedy a k s) eqn:E.
      * intros [= <-]. destruct (IH eq_refl) as (w & s' & -> & Hw & Hk).
        exists (c :: w), s'. auto.
      * intros H. exists [], (c :: s). auto.
    + intros H. exists [], (c :: s). auto.
Qed.

(** A greedy repetition that can take all of [w] and no more does so when
    the rest of the pattern accepts what follows. *)
Lemma rep_greedy_all {A} (a : atom) (k : str -> option A) w s' x :
  Forall (fun c => atom_ok a c = true) w ->
  match s' with c :: _ => atom_ok a c = false | [] => True end ->
  k s' = Some x ->
  rep_greedy a k (w ++ s') = Some x.
Proof.
  intros Hw Hs Hk. induction Hw as [|c w Hc Hw IH]; simpl.
  - destruct s' as [|c s']; simpl; auto. now rewrite Hs.
  - now rewrite Hc, IH.
Qed.

Lemma run_chars {A} (l : str) s caps (k : str -> list str -> option A) x :
  run (chars l) s caps k = Some x ->
  exists s', s = l ++ s' /\ k s' caps = Some x.
Proof.
  revert s. induction l as [|c l IH]; simpl; intros s.
  - intros H. exists s. auto.
  - destruct s as [|c' s]; [discriminate|].
    destruct (N.eqb_spec c' c); [|discriminate]. subst c'.
    intros H. destruct (IH _ H) as (s' & -> & Hk). exists s'. auto.
Qed.


(** Whatever the matcher hands to the continuation is a suffix of the
    text, with one more group for every group of the pattern. *)
Lemma run_suffix {A} (r : regex) :
  forall s caps (k : str -> list str -> option A) x,
  run r s caps k = Some x ->
  exists w s' caps',
    s = w ++ s' /\ k s' caps' = Some x
    /\ length caps' = length caps + ngroups r.
Proof.
  induction r as [|a|g a|r1 IH1 r2 IH2|r IH|]; simpl; intros s caps k x H.
  - exists [], s, caps. auto.
  - destruct s as [|c s]; [discriminate|].
    destruct (atom_ok a c); [|discriminate].
    exists [c], s, caps. auto.
  - destruct g.
    + apply rep_greedy_sound in H. destruct H as (w & s' & -> & _ & Hk).
      exists w, s', caps. auto.
    + apply rep_lazy_sound in H. destruct H as (w & s' & -> & _ & Hk).
      exists w, s', caps. auto.
  - apply IH1 in H. destruct H as (w1 & s1 & caps1 & -> & H & L1).
    apply IH2 in H. destruct H as (w2 & s2 & caps2 & -> & H & L2).
    exists (w1 ++ w2), s2, caps2. rewrite <- app_assoc.
    repeat split; auto. lia.
  - apply IH in H. destruct H as (w & s' & caps' & -> & H & L).
    eexists w, s', _. repeat split; eauto.
    rewrite length_app. simpl. lia.
  - destruct (at_eol s); [|discriminate]. exists [], s, caps. auto.
Qed.

Lemma match_at_shape (r : regex) b s gs s' :
  match_at r b s = Some (gs, s') ->
  exists w caps, s = w ++ s' /\ gs = w :: caps /\ length caps = ngroups r.
Proof.
  unfold match_at. intros H. apply run_suffix in H.
  destruct H as (w & s1 & caps & -> & H & L).
  destruct (b && _); [discriminate|].
  injection H as <- <-. rewrite firstn_app_sub. exists w, caps. auto.
Qed.

Lemma search_found (r : regex) s gs :
  search r s = Some gs ->
  exists p t s', s = p ++ t /\ match_at r false t = Some (gs, s').
Proof.
  induction s as [|c s IH]; simpl.
  - destruct (match_at r false []) as [[gs' s']|] eqn:E; [|discriminate].
    intros [= <-]. exists [], [], s'. auto.
  - destruct (match_at r false (c :: s)) as [[gs' s']|] eqn:E.
    + intros [= <-]. exists [], (c :: s), s'. auto.
    + intros H. destruct (IH H) as (p & t & s' & -> & Hm).
      exists (c :: p), t, s'. auto.
Qed.

Lemma search_none (r : regex) s :
  search r s = None ->
  forall p t, s = p ++ t -> match_at r false t = None.
Proof.
  induction s as [|c s IH]; simpl.
  - destruct (match_at r false []) as [[gs' s']|] eqn:E; [discriminate|].
    intros _ p t Hs. symmetry in Hs. apply app_eq_nil in Hs.
    destruct Hs as [_ ->]. exact E.
  - destruct (match_at r false (c :: s)) as [[gs' s']|] eqn:E; [discriminate|].
    intros H p t Hs. destruct p as [|c' p]; simpl in Hs.
    + now subst t.
    + injection Hs as _ Hs. eapply IH; eauto.
Qed.

Lemma search_groups (r : regex) s gs :
  search r s = Some gs -> length gs = S (ngroups r).
Proof.
  intros H. apply search_found in H. destruct H as (p & t & s' & _ & H).
  apply match_at_shape in H. destruct H as (w & caps & _ & -> & L).
  simpl. f_equal. exact L.
Qed.

(** A pattern with a group never raises in [extract_text]. *)
Lemma extract_text_capture (r : regex) text clean :
  1 <= ngroups r ->
  extract_text r text 1 clean = Ok (capture r text clean).
Proof.
  intros Hg. unfold extract_text, capture.
  destruct (search r text) as [gs|] eqn:E; [|reflexivity].
  apply search_groups in E.
  destruct gs as [|g0 [|g1 gs]]; simpl in E; try lia. reflexivity.
Qed.

(** A pattern without a group raises as soon as it matches. *)
Lemma extract_text_no_group (r : regex) text clean :
  ngroups r = 0 -> search r text <> None ->
  extract_text r text 1 clean = Raise IndexError.
Proof.
  intros Hg Hs. unfold extract_text.
  destruct (search r text) as [gs|] eqn:E; [|congruence].
  apply search_groups in E. rewrite Hg in E.
  destruct gs as [|g0 [|g1 gs]]; simpl in E; try lia. reflexivity.
Qed.

(** ** The body of get_store_details *)

Lemma fold_append_map {A B} (f : A -> B) (g : list B -> A -> list B) :
  (forall acc x, g acc x = acc ++ [f x]) ->
  forall (l : list A) (acc : list B), fold_left g l acc = acc ++ map f l.
Proof.
  intros Hg l. induction l as [|x l IH]; simpl; intros acc.
  - now rewrite app_nil_r.
  - now rewrite IH, Hg, <- app_assoc.
Qed.

Lemma trading_hours_ok (html : str) :
  trading_hours html = Ok (hour_entries html).
Proof.
  unfold trading_hours, hour_entries, hour_pairs.
  rewrite extract_text_capture by (vm_compute; lia). simpl.
  destruct (capture hours_re html false) as [[|c b]|]; try reflexivity.
  f_equal.
  apply (fold_append_map (fun '(day, hours) => trading_hour day hours)).
  now intros acc [day hours].
Qed.

Lemma location_id_ok (url : str) : location_id url = Ok (url_id url).
Proof.
  unfold location_id, url_id.
  destruct (search id_re url) as [gs|] eqn:E; [|reflexivity].
  apply search_groups in E.
  destruct gs as [|g0 [|g1 gs]]; simpl in E; try lia. reflexivity.
Qed.

Lemma search_any (s : str) : search any_re s <> None.
Proof.
  assert (H : match_at any_re false s = Some ([s], [])).
  { unfold match_at, any_re. simpl.
    set (k := fun s' : str => _).
    assert (Hk : k [] = Some ([s], [])).
    { unfold k. simpl. now rewrite Nat.sub_0_r, firstn_all. }
    rewrite <- (app_nil_r s) at 1.
    apply rep_greedy_all; auto. now apply Forall_forall. }
  destruct s; cbn [search]; rewrite H; discriminate.
Qed.

(** Inside an address block: a non-empty street address raises, through the
    group 1 asked of [.*]; otherwise address1 is null. *)
Lemma address_fields_block (c : char) (b : str) :
  address_fields (Some (c :: b)) =
  if truthy (capture street_re (c :: b) false)
  then Raise IndexError
  else Ok (None,
           capture locality_re (c :: b) true,
           capture region_re (c :: b) true,
           capture postal_re (c :: b) true).
Proof.
  unfold address_fields.
  rewrite !extract_text_capture by (vm_compute; lia). simpl.
  destruct (capture street_re (c :: b) false) as [[|c1 t]|]; simpl;
    try reflexivity.
  rewrite extract_text_no_group; [reflexivity|reflexivity|apply search_any].
Qed.

Lemma address_fields_street (html : str) :
  truthy (street_address html) = true ->
  address_fields (capture address_re html false) = Raise IndexError.
Proof.
  unfold street_address.
  destruct (capture address_re html false) as [[|c b]|]; try discriminate.
  intros H. now rewrite address_fields_block, H.
Qed.

Lemma address_fields_no_street (html : str) :
  truthy (street_address html) = false ->
  exists city state postcode,
    address_fields (capture address_re html false)
    = Ok (None, city, state, postcode).
Proof.
  unfold street_address.
  destruct (capture address_re html false) as [[|c b]|];
    try (intros _; exists None, None, None; reflexivity).
  intros H. rewrite address_fields_block, H. eauto.
Qed.

(** The body with the calls that cannot raise resolved. *)
Lemma body_unfold (html url : str) :
  get_store_details_body html url =
  (address <- address_fields (capture address_re html false) ;;
   let '(address1, city, state, postcode) := address in
   if negb (truthy (capture heading_re html true)) then Ok None
   else
     lat <- to_float (capture lat_re html true) ;;
     lng <- to_float (capture lng_re html true) ;;
     Ok (Some (store_data (url_id url) (capture heading_re html true)
                 (capture phone_re html true) address1 city state postcode
                 lat lng (hour_entries html) url))).
Proof.
  unfold get_store_details_body.
  rewrite !extract_text_capture by (vm_compute; lia). simpl.
  destruct (address_fields _) as [[[[a1 ci] st] pc]|e]; simpl; auto.
  now rewrite trading_hours_ok, location_id_ok.
Qed.

Lemma to_float_parseable (x : option str) :
  parseable x -> exists v, to_float x = Ok v.
Proof.
  intros H. destruct x as [[|c s]|]; simpl; eauto.
  specialize (H c s eq_refl). destruct (py_float (c :: s)); eauto.
  congruence.
Qed.

Lemma to_float_unparseable (x : option str) :
  unparseable x -> to_float x = Raise ValueError.
Proof.
  intros (c & s & -> & H). simpl. now rewrite H.
Qed.

Lemma to_float_ok_parseable (x : option str) v :
  to_float x = Ok v -> parseable x.
Proof.
  intros H c s ->. simpl in H. destruct (py_float (c :: s)); congruence.
Qed.

(** A record comes out exactly when no street address raises, the name is
    there and both coordinates convert. *)
Lemma extract_some_iff (html url : str) :
  (exists r, extract html url = Some r) <->
  truthy (street_address html) = false /\
  truthy (capture heading_re html true) = true /\
  parseable (capture lat_re html true) /\
  parseable (capture lng_re html true).
Proof.
  unfold extract. rewrite body_unfold. split.
  - intros [r H].
    destruct (truthy (street_address html)) eqn:Hs.
    { rewrite address_fields_street in H by assumption. discriminate. }
    destruct (address_fields_no_street _ Hs) as (ci & st & pc & E).
    rewrite E in H. simpl in H.
    destruct (truthy (capture heading_re html true)); simpl in H;
      [|discriminate].
    destruct (to_float (capture lat_re html true)) eqn:E1; simpl in H;
      [|discriminate].
    destruct (to_float (capture lng_re html true)) eqn:E2; simpl in H;
      [|discriminate].
    repeat split; eauto using to_float_ok_parseable.
  - intros (Hs & Hn & H1 & H2).
    destruct (address_fields_no_street _ Hs) as (ci & st & pc & E).
    rewrite E. simpl. rewrite Hn. simpl.
    destruct (to_float_parseable H1) as [v1 ->].
    destruct (to_float_parseable H2) as [v2 ->]. simpl. eauto.
Qed.

(** The shape of every record that comes out. *)
Lemma extract_record (html url : str) (r : dict) :
  extract html url = Some r ->
  exists city state postcode lat lng,
    address_fields (capture address_re html false)
      = Ok (None, city, state, postcode) /\
    to_float (capture lat_re html true) = Ok lat /\
    to_float (capture lng_re html true) = Ok lng /\
    r = store_data (url_id url) (capture heading_re html true)
          (capture phone_re html true) None city state postcode lat lng
          (hour_entries html) url.
Proof.
  intros H.
  assert (Hs : truthy (street_address html) = false).
  { apply (proj1 (extract_some_iff html url)). eauto. }
  unfold extract in H. rewrite body_unfold in H.
  destruct (address_fields_no_street _ Hs) as (ci & st & pc & E).
  rewrite E in H. simpl in H.
  destruct (truthy (capture heading_re html true)); simpl in H;
    [|discriminate].
  destruct (to_float (capture lat_re html true)) eqn:E1; simpl in H;
    [|discriminate].
  destruct (to_float (capture lng_re html true)) eqn:E2; simpl in H;
    [|discriminate].
  injection H as <-. exists ci, st, pc, a, a0. auto.
Qed.

(** ** Substrings a match needs *)

Lemma starts_with_app (x q : str) : starts_with x (x ++ q) = true.
Proof.
  induction x as [|c x IH]; simpl; auto. now rewrite N.eqb_refl.
Qed.

Lemma occurs_intro (x p q : str) : occurs x (p ++ x ++ q).
Proof.
  assert (P : forall s, starts_with x s = true -> occursb x s = true).
  { intros [|c s] H; simpl; now rewrite H. }
  unfold occurs. induction p as [|c p IH].
  - apply P. apply (starts_with_app x q).
  - simpl. simpl in IH. rewrite IH. apply orb_true_r.
Qed.

Lemma occurs_elim (x s : str) :
  occurs x s -> exists p q, s = p ++ x ++ q.
Proof.
  assert (P : forall x s, starts_with x s = true -> exists q, s = x ++ q).
  { clear. induction x as [|c x IH]; intros s; simpl.
    - exists s. reflexivity.
    - destruct s as [|d s]; [discriminate|].
      destruct (N.eqb_spec c d); [|discriminate]. subst d. simpl.
      intros H. destruct (IH _ H) as [q ->]. now exists q. }
  unfold occurs. induction s as [|c s IH]; simpl.
  - rewrite orb_false_r. intros H. destruct (P _ _ H) as [q ->].
    exists [], q. reflexivity.
  - intros H. apply orb_true_iff in H. destruct H as [H|H].
    + destruct (P _ _ H) as [q ->]. exists [], q. reflexivity.
    + destruct (IH H) as (p & q & ->). exists (c :: p), q. reflexivity.
Qed.

(** A pattern that opens with a literal matches only where the literal is. *)
Lemma search_literal (l : str) (r : regex) (s : str) :
  search (Seq (chars l) r) s <> None -> occurs l s.
Proof.
  destruct (search _ s) as [gs|] eqn:E; [intros _|congruence].
  apply search_found in E. destruct E as (p & t & s' & -> & H).
  unfold match_at in H. cbn [run] in H. apply run_chars in H.
  destruct H as (q & -> & _). apply occurs_intro.
Qed.


Lemma capture_none (r : regex) (text : str) (clean : bool) :
  search r text = None -> capture r text clean = None.
Proof. unfold capture. now intros ->. Qed.

Lemma absent_attribute (name html : str) :
  ~ occurs (name ++ lit "=" ++ [quote]) html ->
  capture (attr_re name) html true = None.
Proof.
  intros H. apply capture_none.
  destruct (search (attr_re name) html) eqn:E; [|reflexivity].
  exfalso. apply H. apply (@search_literal _ (seq [Group (Plus Greedy (NotChr quote)); chars [quote]])).
  unfold attr_re in E. cbn [seq] in E |- *. congruence.
Qed.

Lemma parseable_or_not (x : option str) : parseable x \/ unparseable x.
Proof.
  destruct x as [[|c s]|].
  - left. intros c s [=].
  - destruct (py_float (c :: s)) eqn:E.
    + left. intros c' s' [= <- <-]. congruence.
    + right. exists c, s. auto.
  - left. intros c s [=].
Qed.

Lemma unparseable_not_parseable (x : option str) :
  unparseable x -> ~ parseable x.
Proof. intros (c & s & -> & E) H. exact (H c s eq_refl E). Qed.

Lemma extract_of_fetch (url html : str) :
  urlopen env url = Ok html ->
  fst (get_store_details (Some url)) = extract html url.
Proof.
  intros E. unfold get_store_details, extract. rewrite E. simpl.
  destruct (get_store_details_body html url); reflexivity.
Qed.

Lemma extract_none_without_name (html url : str) :
  truthy (capture heading_re html true) = false -> extract html url = None.
Proof.
  intros H. destruct (extract html url) as [r|] eqn:E; [|reflexivity].
  assert (X : exists r, extract html url = Some r) by eauto.
  apply extract_some_iff in X. destruct X as (_ & X & _). congruence.
Qed.

Lemma body_value_error (html url : str) :
  truthy (street_address html) = false ->
  truthy (capture heading_re html true) = true ->
  unparseable (capture lat_re html true) \/
  unparseable (capture lng_re html true) ->
  get_store_details_body html url = Raise ValueError.
Proof.
  intros Hs Hn Hc. rewrite body_unfold.
  destruct (address_fields_no_street _ Hs) as (ci & st & pc & ->).
  simpl. rewrite Hn. simpl.
  destruct (parseable_or_not (capture lat_re html true)) as [P|U].
  - destruct (to_float_parseable P) as [v ->]. simpl.
    destruct Hc as [U|U].
    + now apply unparseable_not_parseable in U.
    + now rewrite (to_float_unparseable U).
  - now rewrite (to_float_unparseable U).
Qed.

(** ** The claims about the extraction *)

(** C2, as amended.  A latitude or longitude attribute whose text is not a
    number does not become null in a record: [float] raises, the handler
    of [get_store_details] catches it, and the page yields no record.  On a
    page whose name is derivable (and without a street address) the
    exception is the ValueError of [float], reported as an
    "Error processing" line; nothing propagates to the caller. *)
Theorem unparseable_coordinate_drops_record (url html : str) :
  urlopen env url = Ok html ->
  unparseable (capture lat_re html true) \/
  unparseable (capture lng_re html true) ->
  fst (get_store_details (Some url)) = None /\
  (truthy (street_address html) = false ->
   truthy (capture heading_re html true) = true ->
   get_store_details (Some url) =
   (None,
    (if verbose then [Err (DFetching (Some url))] else [])
    ++ [Get url; Err (DErrProcessing (Some url) ValueError)])).
Proof.
  intros Hf Hc. split.
  - rewrite (extract_of_fetch _ Hf).
    destruct (extract html url) as [r|] eqn:E; [|reflexivity].
    assert (X : exists r, extract html url = Some r) by eauto.
    apply extract_some_iff in X. destruct X as (_ & _ & P1 & P2).
    destruct Hc as [U|U]; now apply unparseable_not_parseable in U.
  - intros Hs Hn. unfold get_store_details. rewrite Hf. simpl.
    now rewrite (@body_value_error html url Hs Hn Hc).
Qed.


(** C5.  On a page with a valid heading and no address block, a record
    comes out as soon as the coordinates convert, and every record that
    comes out has address1, city, state and postcode null, whatever spans
    the page holds elsewhere; the other fields are what their own rules
    derive. *)
Theorem no_address_block_record (html url : str) :
  truthy (capture heading_re html true) = true ->
  search address_re html = None ->
  (parseable (capture lat_re html true) ->
   parseable (capture lng_re html true) ->
   exists r, extract html url = Some r) /\
  (forall r, extract html url = Some r ->
   exists lat lng,
     to_float (capture lat_re html true) = Ok lat /\
     to_float (capture lng_re html true) = Ok lng /\
     r = store_data (url_id url) (capture heading_re html true)
           (capture phone_re html true) None None None None lat lng
           (hour_entries html) url).
Proof.
  intros Hn Ha.
  assert (Hc : capture address_re html false = None)
    by now apply capture_none.
  assert (Hs : truthy (street_address html) = false)
    by (unfold street_address; now rewrite Hc).
  split.
  - intros P1 P2. apply extract_some_iff. auto.
  - intros r E. apply extract_record in E.
    destruct E as (ci & st & pc & lat & lng & Ea & E1 & E2 & ->).
    rewrite Hc in Ea. simpl in Ea. injection Ea as <- <- <-.
    exists lat, lng. auto.
Qed.


(** C9.  Latitude and longitude are independent: in a record, a coordinate
    whose attribute holds a number carries the converted value while the
    other, whose attribute is nowhere on the page, is null. *)
Theorem coordinates_independent (html url : str) (r : dict) (c : char)
    (s : str) (v : F) :
  extract html url = Some r ->
  py_float (c :: s) = Some v ->
  (capture lat_re html true = Some (c :: s) ->
   ~ occurs (lit "data-lng=" ++ [quote]) html ->
   lookup r "latitude" = Some (VFloat v) /\
   lookup r "longitude" = Some VNone) /\
  (capture lng_re html true = Some (c :: s) ->
   ~ occurs (lit "data-lat=" ++ [quote]) html ->
   lookup r "longitude" = Some (VFloat v) /\
   lookup r "latitude" = Some VNone).
Proof.
  intros E Hv. apply extract_record in E.
  destruct E as (ci & st & pc & lat & lng & _ & E1 & E2 & ->).
  split; intros Hp Ha.
  - apply (absent_attribute (lit "data-lng")) in Ha.
    change (capture lng_re html true = None) in Ha.
    rewrite Hp in E1. rewrite Ha in E2. simpl in E1, E2.
    rewrite Hv in E1. injection E1 as <-. injection E2 as <-. now split.
  - apply (absent_attribute (lit "data-lat")) in Ha.
    change (capture lat_re html true = None) in Ha.
    rewrite Hp in E2. rewrite Ha in E1. simpl in E1, E2.
    rewrite Hv in E2. injection E1 as <-. injection E2 as <-. now split.
Qed.

(** C10.  A heading whose captured text cleans to the empty string gives
    "not found", and no record carries an empty publicName. *)
Theorem empty_name_not_found (html url : str) :
  (capture heading_re html true = Some [] -> extract html url = None) /\
  (forall r, extract html url = Some r ->
   exists name, name <> [] /\ lookup r "publicName" = Some (VStr name)).
Proof.
  split.
  - intros H. apply extract_none_without_name. now rewrite H.
  - intros r E.
    assert (X : exists r, extract html url = Some r) by eauto.
    apply extract_some_iff in X. destruct X as (_ & Hn & _).
    apply extract_record in E.
    destruct E as (ci & st & pc & lat & lng & _ & _ & _ & ->).
    destruct (capture heading_re html true) as [[|c n]|]; try discriminate.
    exists (c :: n). split; [discriminate|reflexivity].
Qed.

(** ** Text cleaning *)

Lemma scan_copy (r : regex) (c : char) (s : str) :
  match_at r false (c :: s) = None ->
  scan r 0 (c :: s) = Copy c :: scan r 0 s.
Proof. intros H. cbn [scan]. now rewrite H. Qed.

Lemma scan_hit_one (r : regex) (c : char) (s : str) (gs : list str) :
  match_at r false (c :: s) = Some (gs, s) ->
  scan r 0 (c :: s) = Hit gs :: scan r 0 s.
Proof.
  intros H. cbn [scan]. rewrite H.
  replace (length (c :: s) - length s) with 1 by (cbn [length]; lia).
  reflexivity.
Qed.

(** Where the pattern matches nowhere, [re.sub] changes nothing. *)
Lemma sub_no_match (r : regex) (repl s : str) :
  search r s = None -> sub r repl s = s.
Proof.
  intros H. pose proof (@search_none r s H) as N. clear H.
  unfold sub. induction s as [|c s IH].
  - cbn [scan]. now rewrite (N [] [] eq_refl).
  - rewrite scan_copy by apply (N [] (c :: s) eq_refl).
    simpl. f_equal. apply IH. intros p t ->. apply (N (c :: p) t eq_refl).
Qed.

Lemma lstrip_clean (s : str) : starts_clean s = true -> lstrip s = s.
Proof.
  destruct s as [|c s]; simpl; auto.
  now destruct (py_isspace c).
Qed.

Lemma strip_clean (s : str) :
  starts_clean s = true -> starts_clean (rev s) = true -> strip s = s.
Proof.
  intros H1 H2. unfold strip, rstrip.
  now rewrite (@lstrip_clean s H1), (@lstrip_clean (rev s) H2), rev_involutive.
Qed.

Lemma ws_no_match (c : char) (s : str) :
  py_isspace c = false -> match_at ws_re false (c :: s) = None.
Proof.
  intros H. unfold match_at, ws_re, Plus. cbn [run]. simpl atom_ok.
  now rewrite H.
Qed.

Lemma ws_match_one (c : char) (s : str) :
  py_isspace c = true ->
  match s with c' :: _ => py_isspace c' = false | [] => True end ->
  match_at ws_re false (c :: s) = Some ([[c]], s).
Proof.
  intros H Hs. unfold match_at, ws_re, Plus. cbn [run]. simpl atom_ok.
  rewrite H.
  replace (rep_greedy _ _ s) with
    (rep_greedy Space
       (fun s' => if false && (length s' =? length (c :: s))
                  then None
                  else Some ([firstn (length (c :: s) - length s') (c :: s)],
                             s')) ([] ++ s)) by reflexivity.
  erewrite rep_greedy_all; [reflexivity|constructor|exact Hs|].
  cbn [andb]. do 3 f_equal.
  replace (length (c :: s) - length s) with 1 by (cbn [length]; lia).
  reflexivity.
Qed.

(** Single spaces stay as they are under [re.sub(r'\s+', ' ', _)]. *)
Lemma sub_ws_single_spaced (s : str) :
  single_spaced s = true -> sub ws_re [space] s = s.
Proof.
  unfold sub. induction s as [|c s IH]; intros H.
  - reflexivity.
  - cbn [single_spaced] in H. apply andb_true_iff in H.
    destruct H as [Hc Hs]. specialize (IH Hs).
    destruct (py_isspace c) eqn:Ec.
    + apply andb_true_iff in Hc. destruct Hc as [Hc Hn].
      apply N.eqb_eq in Hc. subst c.
      rewrite (@scan_hit_one ws_re space s [[space]]).
      * simpl. now rewrite IH.
      * apply ws_match_one; auto.
        destruct s as [|c' s]; auto. now apply negb_true_iff.
    + rewrite scan_copy by now apply ws_no_match.
      simpl. now rewrite IH.
Qed.

(** C7.  Cleaning a string that is already clean (no tag, every whitespace
    a single space, nothing to trim) gives it back unchanged, both for the
    cleaning proper and for the whole treatment [extract_text] gives a
    captured group. *)
Theorem cleaning_keeps_clean_text (s : str) :
  is_clean s -> clean_text s = s /\ finish true s = s.
Proof.
  intros (Ht & Hs & H1 & H2).
  assert (C : clean_text s = s).
  { unfold clean_text.
    now rewrite (@sub_no_match tag_re [] s Ht), (@strip_clean s H1 H2),
      sub_ws_single_spaced. }
  split; [exact C|].
  unfold finish. now rewrite (@strip_clean s H1 H2).
Qed.

(** ** The locationId of a URL *)

Section LocationId.

(** On ASCII the decimal digits are 0-9. *)
Hypothesis uni_decimal_ascii :
  forall c, (c < 128)%N -> uni_decimal c = ascii_decimal c.

Lemma slash_no_digit : uni_decimal slash = false.
Proof. now rewrite uni_decimal_ascii. Qed.

Lemma newline_no_digit : uni_decimal newline = false.
Proof. now rewrite uni_decimal_ascii. Qed.

Lemma at_eol_cases (s : str) :
  at_eol s = true -> s = [] \/ s = [newline].
Proof.
  destruct s as [|c [|c' s]]; simpl; auto; try discriminate.
  intros H. apply N.eqb_eq in H. subst. auto.
Qed.

(** What one match of [/(\d+)$] looks like. *)
Lemma id_match_shape (t : str) (gs : list str) (rest : str) :
  match_at id_re false t = Some (gs, rest) ->
  exists d, t = slash :: d ++ rest /\ d <> [] /\ digits d /\
            at_eol rest = true /\ gs = [slash :: d; d].
Proof.
  unfold match_at, id_re, Plus. cbn [run seq].
  destruct t as [|c t]; [discriminate|]. simpl atom_ok.
  destruct (N.eqb_spec c slash); [subst c|discriminate].
  destruct t as [|c1 t]; [discriminate|].
  destruct (uni_decimal c1) eqn:E1; [|discriminate].
  intros H. apply rep_greedy_sound in H.
  destruct H as (w & s' & -> & Hw & H).
  destruct (at_eol s') eqn:Ee; [|discriminate].
  cbn [andb] in H. injection H as <- <-.
  exists (c1 :: w). repeat split; auto.
  - discriminate.
  - constructor; auto.
  - change ([firstn (length ((slash :: c1 :: w) ++ s') - length s')
               ((slash :: c1 :: w) ++ s');
             firstn (length ((c1 :: w) ++ s') - length s')
               ((c1 :: w) ++ s')]
            = [slash :: c1 :: w; c1 :: w]).
    now rewrite !firstn_app_sub.
Qed.

(** A slash, digits and the end of the line match, with the digits as
    group 1. *)
Lemma id_match_here (d rest : str) :
  d <> [] -> digits d -> at_eol rest = true ->
  match_at id_re false (slash :: d ++ rest) = Some ([slash :: d; d], rest).
Proof.
  intros Hd Hds He. destruct d as [|c1 w]; [congruence|].
  inversion Hds as [|? ? H1 Hw]; subst.
  unfold match_at, id_re, Plus. cbn [run seq app]. simpl atom_ok.
  rewrite H1.
  erewrite rep_greedy_all; [reflexivity|exact Hw| |].
  - destruct (at_eol_cases _ He) as [->| ->]; auto.
    apply newline_no_digit.
  - rewrite He. cbn [andb app].
    pose proof (firstn_app_sub (slash :: c1 :: w) rest) as F1.
    pose proof (firstn_app_sub (c1 :: w) rest) as F2.
    cbn [app] in F1, F2. now rewrite F1, F2.
Qed.

Lemma search_id_intro (p d rest : str) :
  d <> [] -> digits d -> at_eol rest = true ->
  search id_re (p ++ slash :: d ++ rest) = Some [slash :: d; d].
Proof.
  intros Hd Hds He. induction p as [|c p IH].
  - cbn [app search]. now rewrite id_match_here.
  - cbn [app search].
    destruct (match_at id_re false (c :: p ++ slash :: d ++ rest))
      as [[gs' rest']|] eqn:E; [|exact IH].
    exfalso. apply id_match_shape in E.
    destruct E as (d' & Ht & _ & Hds' & He' & _).
    injection Ht as _ Ht.
    assert (Hin : In slash (d' ++ rest'))
      by (rewrite <- Ht; apply in_or_app; right; left; reflexivity).
    apply in_app_or in Hin. destruct Hin as [Hin|Hin].
    + unfold digits in Hds'. rewrite Forall_forall in Hds'.
      apply Hds' in Hin. rewrite slash_no_digit in Hin. discriminate.
    + destruct (at_eol_cases _ He') as [->| ->]; simpl in Hin.
      * contradiction.
      * destruct Hin as [Hin|[]]. discriminate.
Qed.

Lemma search_id_elim (url : str) (gs : list str) :
  search id_re url = Some gs ->
  exists p d rest, url = p ++ slash :: d ++ rest /\ d <> [] /\ digits d /\
                   at_eol rest = true /\ gs = [slash :: d; d].
Proof.
  intros H. apply search_found in H. destruct H as (p & t & s' & -> & H).
  apply id_match_shape in H. destruct H as (d & -> & Hd & Hds & He & ->).
  exists p, d, s'. auto.
Qed.

Lemma ends_in_newline_app (p : str) :
  ends_in_newline (p ++ [newline]) = true.
Proof. unfold ends_in_newline. now rewrite rev_app_distr. Qed.

(** C4, as amended.  The locationId comes from the URL alone and never
    fails.  For a URL that does not end in a newline it is the run of
    digits that ends the URL, provided the run is not empty and stands
    right after a slash, and it is null in every other case: the URL does
    not end in a digit, or the digits at its end do not follow a slash.
    https://example.com/stores/00042 gives "00042" and
    https://example.com/stores/ gives null. *)
Theorem location_id_after_slash :
  (forall url, exists o, location_id url = Ok o) /\
  (forall url d, ends_in_newline url = false ->
     (location_id url = Ok (Some d) <->
      d <> [] /\ Forall (fun c => uni_decimal c = true) d /\
      exists p, url = p ++ slash :: d)) /\
  (forall url, ends_in_newline url = false ->
     (location_id url = Ok None <->
      ~ exists p d, d <> [] /\ Forall (fun c => uni_decimal c = true) d /\
                    url = p ++ slash :: d)) /\
  location_id (lit "https://example.com/stores/00042")
    = Ok (Some (lit "00042")) /\
  location_id (lit "https://example.com/stores/") = Ok None.
Proof.
  assert (P2 : forall url d, ends_in_newline url = false ->
     (location_id url = Ok (Some d) <->
      d <> [] /\ Forall (fun c => uni_decimal c = true) d /\
      exists p, url = p ++ slash :: d)).
  { intros url d Hn. rewrite location_id_ok. unfold url_id. split.
    - destruct (search id_re url) as [gs|] eqn:E; [|discriminate].
      intros [= <-]. apply search_id_elim in E.
      destruct E as (p & d & rest & -> & Hd & Hds & He & ->).
      destruct (at_eol_cases _ He) as [->| ->].
      + rewrite app_nil_r. simpl. eauto.
      + exfalso.
        change (p ++ slash :: d ++ [newline])
          with (p ++ (slash :: d) ++ [newline]) in Hn.
        rewrite app_assoc, ends_in_newline_app in Hn. discriminate.
    - intros (Hd & Hds & p & ->).
      rewrite <- (app_nil_r d) at 1.
      now rewrite (@search_id_intro p d [] Hd Hds eq_refl). }
  split; [|split; [exact P2|split; [|split]]].
  - intros url. rewrite location_id_ok. eauto.
  - intros url Hn. split.
    + intros H (p & d & Hd & Hds & ->).
      assert (X : location_id (p ++ slash :: d) = Ok (Some d))
        by (apply P2; eauto).
      congruence.
    + intros H. rewrite location_id_ok.
      destruct (url_id url) as [d|] eqn:E; [|reflexivity].
      exfalso. apply H.
      assert (X : location_id url = Ok (Some d))
        by (rewrite location_id_ok; congruence).
      apply P2 in X; auto. destruct X as (Hd & Hds & p & ->). eauto.
  - rewrite location_id_ok. unfold url_id.
    change (lit "https://example.com/stores/00042")
      with (lit "https://example.com/stores" ++ slash :: lit "00042" ++ []).
    rewrite search_id_intro; try reflexivity; try discriminate.
    repeat constructor; now rewrite uni_decimal_ascii.
  - rewrite location_id_ok. unfold url_id.
    assert (E : search id_re (lit "https://example.com/stores/") = None).
    { cbv. rewrite !uni_decimal_ascii by reflexivity. reflexivity. }
    now rewrite E.
Qed.

End LocationId.

(** ** Sorting *)

Section SortedFacts.
Context {A : Type} (key : A -> pyval).

Lemma fold_raise (l : list A) (e : exn) :
  fold_left (sort_step key) l (Raise e) = Raise e.
Proof. induction l as [|x l IH]; simpl; auto. Qed.

Lemma insert_not_str (x y : A) (l : list A) :
  str_keyed key x = false -> insert_by key x (y :: l) = Raise TypeError.
Proof.
  unfold str_keyed. simpl. unfold key_lt.
  destruct (key x); try discriminate; reflexivity.
Qed.

Lemma insert_into_not_str (x y : A) (l : list A) :
  str_keyed key y = false -> insert_by key x (y :: l) = Raise TypeError.
Proof.
  unfold str_keyed. simpl. unfold key_lt.
  destruct (key x), (key y); try discriminate; reflexivity.
Qed.

Lemma insert_str (x : A) (l : list A) :
  str_keyed key x = true -> forallb (str_keyed key) l = true ->
  exists l', insert_by key x l = Ok l' /\ l' <> [] /\
             forallb (str_keyed key) l' = true.
Proof.
  intros Hx. induction l as [|y l IH]; simpl; intros Hl.
  - exists [x]. simpl. rewrite Hx. repeat split. discriminate.
  - apply andb_true_iff in Hl. destruct Hl as [Hy Hl].
    assert (Ex : exists sx, key x = VStr sx)
      by (unfold str_keyed in Hx; destruct (key x); try discriminate;
          eauto).
    assert (Ey : exists sy, key y = VStr sy)
      by (unfold str_keyed in Hy; destruct (key y); try discriminate;
          eauto).
    destruct Ex as [sx Ex]. destruct Ey as [sy Ey].
    rewrite Ex, Ey. cbn [key_lt bind].
    destruct (str_ltb sx sy).
    + eexists. split; [reflexivity|]. split; [discriminate|].
      cbn [forallb]. now rewrite Hx, Hy, Hl.
    + destruct (IH Hl) as (l' & -> & _ & Hl'). cbn [bind].
      eexists. split; [reflexivity|]. split; [discriminate|].
      cbn [forallb]. now rewrite Hy, Hl'.
Qed.

Lemma fold_strs (l s0 : list A) :
  s0 <> [] -> forallb (str_keyed key) s0 = true ->
  forallb (str_keyed key) l = false ->
  fold_left (sort_step key) l (Ok s0) = Raise TypeError.
Proof.
  revert s0. induction l as [|x l IH]; simpl; intros s0 Hn Hs Hl.
  - discriminate.
  - destruct (str_keyed key x) eqn:Hx; simpl in Hl.
    + destruct (@insert_str x s0 Hx Hs) as (l' & E & Hn' & Hs').
      rewrite E. auto.
    + destruct s0 as [|y s0]; [congruence|].
      rewrite (@insert_not_str x y s0 Hx). apply fold_raise.
Qed.

(** With two or more elements, a key that is not a string ends the sort
    with a TypeError. *)
Lemma py_sorted_raises (l : list A) :
  2 <= length l -> forallb (str_keyed key) l = false ->
  py_sorted key l = Raise TypeError.
Proof.
  destruct l as [|x1 [|x2 l]]; simpl; try lia. intros _ H.
  change (fold_left (sort_step key) l (insert_by key x2 [x1]) = Raise TypeError).
  destruct (str_keyed key x1) eqn:H1.
  - destruct (str_keyed key x2) eqn:H2; simpl in H.
    + assert (Hs : forallb (str_keyed key) [x1] = true)
        by (simpl; now rewrite H1).
      destruct (@insert_str x2 [x1] H2 Hs) as (l' & E & Hn' & Hs').
      rewrite E. now apply fold_strs.
    + rewrite (@insert_not_str x2 x1 [] H2). apply fold_raise.
  - rewrite (@insert_into_not_str x2 x1 [] H1). apply fold_raise.
Qed.
End SortedFacts.

(** C1, on the code.  [x.get('locationId', '')] finds the key in every
    record, so a null locationId stays [None] as a sort key: as soon as
    there are two records and one of them has a null locationId, the sort
    raises TypeError instead of putting that record first. *)
Theorem sort_stores_null_raises (stores : list dict) (x : dict) :
  2 <= length stores ->
  In x stores ->
  lookup x "locationId" = Some VNone ->
  sort_stores stores = Raise TypeError.
Proof.
  intros Hl Hin Hx. unfold sort_stores. apply py_sorted_raises; auto.
  destruct (forallb _ stores) eqn:E; [|reflexivity].
  rewrite forallb_forall in E. specialize (E x Hin).
  unfold str_keyed, dict_get in E. rewrite Hx in E. discriminate.
Qed.


(** ** More on the outcome of a page *)

Lemma body_raise_kind (html url : str) (e : exn) :
  get_store_details_body html url = Raise e ->
  e = IndexError \/ e = ValueError.
Proof.
  rewrite body_unfold.
  destruct (truthy (street_address html)) eqn:Hs.
  - rewrite (address_fields_street _ Hs). intros [= <-]. auto.
  - destruct (address_fields_no_street _ Hs) as (ci & st & pc & ->).
    simpl. destruct (truthy (capture heading_re html true)); simpl;
      [|discriminate].
    unfold to_float.
    destruct (capture lat_re html true) as [[|c1 s1]|]; simpl;
      try destruct (py_float (c1 :: s1)); simpl;
      destruct (capture lng_re html true) as [[|c2 s2]|]; simpl;
      try destruct (py_float (c2 :: s2)); simpl;
      try discriminate; intros [= <-]; auto.
Qed.

(** X1.  A page whose address block holds a non-empty street address never
    gives a record: the second pass over the street address asks for group
    1 of the pattern [.*], which has no group, and the IndexError is caught
    and reported as an "Error processing" line. *)
Theorem street_address_index_error (url html : str) :
  urlopen env url = Ok html ->
  truthy (street_address html) = true ->
  get_store_details_body html url = Raise IndexError /\
  get_store_details (Some url) =
  (None,
   (if verbose then [Err (DFetching (Some url))] else [])
   ++ [Get url; Err (DErrProcessing (Some url) IndexError)]).
Proof.
  intros Hf Hs.
  assert (B : get_store_details_body html url = Raise IndexError).
  { rewrite body_unfold. now rewrite (address_fields_street _ Hs). }
  split; [exact B|].
  unfold get_store_details. rewrite Hf. simpl. now rewrite B.
Qed.

(** X2.  Every record the extraction gives has the fourteen keys of the
    dict literal, in its order; address1, address2 and address3 are null
    in all of them (a street address that would fill address1 raises
    instead), typename is "Location", url is the URL asked for and
    locationId what the pattern finds in that URL. *)
Theorem record_schema (html url : str) (r : dict) :
  extract html url = Some r ->
  map fst r = record_keys /\
  lookup r "address1" = Some VNone /\
  lookup r "address2" = Some VNone /\
  lookup r "address3" = Some VNone /\
  lookup r "typename" = Some (VStr (lit "Location")) /\
  lookup r "url" = Some (VStr url) /\
  lookup r "locationId" = Some (of_opt (url_id url)).
Proof.
  intros E. apply extract_record in E.
  destruct E as (ci & st & pc & lat & lng & _ & _ & _ & ->).
  repeat split.
Qed.

(** X3.  The body of [get_store_details] raises in two ways only: the
    IndexError of a non-empty street address, and, on a page without one
    and with a name, the ValueError of a coordinate that is not a number. *)
Theorem body_raises_only (html url : str) (e : exn) :
  get_store_details_body html url = Raise e ->
  (e = IndexError /\ truthy (street_address html) = true) \/
  (e = ValueError /\ truthy (street_address html) = false /\
   truthy (capture heading_re html true) = true /\
   (unparseable (capture lat_re html true) \/
    unparseable (capture lng_re html true))).
Proof.
  intros H. destruct (truthy (street_address html)) eqn:Hs.
  - left. split; [|reflexivity].
    rewrite body_unfold, (address_fields_street _ Hs) in H. simpl in H.
    congruence.
  - right. rewrite body_unfold in H.
    destruct (address_fields_no_street _ Hs) as (ci & st & pc & E).
    rewrite E in H. simpl in H.
    destruct (truthy (capture heading_re html true)); simpl in H;
      [|discriminate].
    destruct (parseable_or_not (capture lat_re html true)) as [P1|U1].
    + destruct (to_float_parseable P1) as [v1 E1]. rewrite E1 in H.
      simpl in H.
      destruct (parseable_or_not (capture lng_re html true)) as [P2|U2].
      * destruct (to_float_parseable P2) as [v2 E2]. rewrite E2 in H.
        discriminate.
      * rewrite (to_float_unparseable U2) in H. injection H as <-. auto.
    + rewrite (to_float_unparseable U1) in H. injection H as <-. auto.
Qed.

(** X4.  An "Error fetching" line is printed only for a URL whose
    [urlopen] raised URLError or HTTPError; no failure of the extraction
    itself is ever reported as a fetch error. *)
Theorem fetch_error_lines (url u : option str) (e : exn) :
  In (Err (DErrFetching u e)) (snd (get_store_details url)) ->
  is_fetch_error e = true /\
  exists x, url = Some x /\ u = Some x /\ urlopen env x = Raise e.
Proof.
  unfold get_store_details.
  assert (T : forall t' : list event,
            In (Err (DErrFetching u e))
               ((if verbose then [Err (DFetching url)] else []) ++ t') ->
            In (Err (DErrFetching u e)) t').
  { intros t' H. apply in_app_or in H. destruct H as [H|H]; auto.
    destruct verbose; simpl in H; [destruct H as [H|[]]|destruct H].
    discriminate. }
  destruct url as [x|]; simpl.
  - destruct (urlopen env x) as [html|e0] eqn:Ef; simpl.
    + destruct (get_store_details_body html x) as [r|e1] eqn:Eb; simpl;
        intros H; apply T in H.
      * destruct H as [H|[]]. discriminate.
      * destruct H as [H|[H|[]]]; [discriminate|].
        destruct (body_raise_kind _ _ Eb) as [-> | ->]; discriminate.
    + intros H. apply T in H. destruct H as [H|[H|[]]]; [discriminate|].
      destruct (is_fetch_error e0) eqn:Ei; [|discriminate].
      injection H as <- <-. eauto.
  - intros H. apply T in H. destruct H as [H|[]]. discriminate.
Qed.


(** ** The loop over the URLs *)

Lemma scrape_results (total : nat) (urls : list (option str)) :
  forall i all_stores errors,
    fst (scrape total i urls all_stores errors)
    = (all_stores ++ successes urls, errors ++ failures i urls).
Proof.
  induction urls as [|url urls IH]; intros i all_stores errors.
  - simpl. now rewrite !app_nil_r.
  - cbn [scrape successes failures flat_map].
    destruct (get_store_details url) as [store_data t] eqn:E.
    cbn [fst].
    destruct store_data as [[|kv d]|].
    + specialize (IH (S i) all_stores (errors ++ [(i, url)])).
      destruct (scrape total (S i) urls all_stores (errors ++ [(i, url)]))
        as [[s' e'] t']. simpl in *. rewrite IH.
      now rewrite <- app_assoc.
    + specialize (IH (S i) (all_stores ++ [kv :: d]) errors).
      destruct (scrape total (S i) urls (all_stores ++ [kv :: d]) errors)
        as [[s' e'] t']. simpl in *. rewrite IH.
      now rewrite <- app_assoc.
    + specialize (IH (S i) all_stores (errors ++ [(i, url)])).
      destruct (scrape total (S i) urls all_stores (errors ++ [(i, url)]))
        as [[s' e'] t']. simpl in *. rewrite IH.
      now rewrite <- app_assoc.
Qed.

Lemma requests_app (t1 t2 : list event) :
  requests (t1 ++ t2) = requests t1 ++ requests t2.
Proof. apply flat_map_app. Qed.

Lemma pauses_app (t1 t2 : list event) :
  pauses (t1 ++ t2) = pauses t1 + pauses t2.
Proof. unfold pauses. now rewrite filter_app, length_app. Qed.

Lemma printed_app (t1 t2 : list event) :
  printed (t1 ++ t2) = printed t1 ++ printed t2.
Proof. apply flat_map_app. Qed.

(** What one call of [get_store_details] leaves in the trace. *)
Lemma get_store_details_trace (url : option str) :
  let t := snd (get_store_details url) in
  requests t = url_strings [url] /\ pauses t = 0 /\ printed t = [].
Proof.
  unfold get_store_details.
  destruct url as [x|]; simpl.
  - destruct (urlopen env x) as [html|e]; simpl;
      [destruct (get_store_details_body html x); simpl|];
      rewrite requests_app, pauses_app, printed_app;
      destruct verbose; repeat split.
  - rewrite requests_app, pauses_app, printed_app.
    destruct verbose; repeat split.
Qed.

Lemma scrape_trace (total : nat) (urls : list (option str)) :
  forall i all_stores errors,
    let t := snd (scrape total i urls all_stores errors) in
    requests t = url_strings urls /\ pauses t = length urls /\
    printed t = [].
Proof.
  induction urls as [|url urls IH]; intros i all_stores errors.
  - repeat split.
  - cbn [scrape].
    pose proof (get_store_details_trace url) as G.
    destruct (get_store_details url) as [store_data t] eqn:E.
    cbv zeta in G. cbn [snd] in G. destruct G as (G1 & G2 & G3).
    assert (V : forall d : diag,
              let t1 := if verbose then [Err d] else [] in
              requests t1 = [] /\ pauses t1 = 0 /\ printed t1 = []).
    { intros d. destruct verbose; repeat split. }
    destruct store_data as [[|kv d]|].
    + specialize (IH (S i) all_stores (errors ++ [(i, url)])).
      destruct (scrape total (S i) urls all_stores (errors ++ [(i, url)]))
        as [[s' e'] t']. cbv zeta in IH. cbn [snd] in IH |- *.
      destruct IH as (I1 & I2 & I3).
      destruct (V (DItemFailed i total)) as (V1 & V2 & V3).
      cbv zeta.
      rewrite !requests_app, !pauses_app, !printed_app, G1, G2, G3, V1, V2,
        V3.
      change (Sleep :: t') with ([Sleep] ++ t').
      rewrite requests_app, pauses_app, printed_app, I1, I2, I3.
      cbn. rewrite app_nil_r. repeat split.
    + specialize (IH (S i) (all_stores ++ [kv :: d]) errors).
      destruct (scrape total (S i) urls (all_stores ++ [kv :: d]) errors)
        as [[s' e'] t']. cbv zeta in IH. cbn [snd] in IH |- *.
      destruct IH as (I1 & I2 & I3).
      destruct (V (DItem i total
                     (dict_get (kv :: d) "publicName" (VStr (lit "Unknown")))))
        as (V1 & V2 & V3).
      cbv zeta.
      rewrite !requests_app, !pauses_app, !printed_app, G1, G2, G3, V1, V2,
        V3.
      change (Sleep :: t') with ([Sleep] ++ t').
      rewrite requests_app, pauses_app, printed_app, I1, I2, I3.
      cbn. rewrite app_nil_r. repeat split.
    + specialize (IH (S i) all_stores (errors ++ [(i, url)])).
      destruct (scrape total (S i) urls all_stores (errors ++ [(i, url)]))
        as [[s' e'] t']. cbv zeta in IH. cbn [snd] in IH |- *.
      destruct IH as (I1 & I2 & I3).
      destruct (V (DItemFailed i total)) as (V1 & V2 & V3).
      cbv zeta.
      rewrite !requests_app, !pauses_app, !printed_app, G1, G2, G3, V1, V2,
        V3.
      change (Sleep :: t') with ([Sleep] ++ t').
      rewrite requests_app, pauses_app, printed_app, I1, I2, I3.
      cbn. rewrite app_nil_r. repeat split.
Qed.





(** ** A whole run *)

Lemma main_summary :
  let urls := fst extract_urls_from_sitemap in
  fst main = (if sitemap_exists env
              then match sort_stores (successes urls) with
                   | Ok _ => 0
                   | Raise _ => 1
                   end
              else 1) /\
  requests (snd main) = (if sitemap_exists env then url_strings urls else [])
  /\
  pauses (snd main) = (if sitemap_exists env then length urls else 0) /\
  printed (snd main) = (if sitemap_exists env
                        then match sort_stores (successes urls) with
                             | Ok stores => [stores]
                             | Raise _ => []
                             end
                        else []) /\
  (forall stores, In stores (printed (snd main)) ->
     exists t, snd main = t ++ [Out stores] /\ printed t = []).
Proof.
  cbv zeta. unfold main.
  destruct (sitemap_exists env); cbn [negb].
  2: { repeat split. intros stores []. }
  assert (U : let t1 := snd extract_urls_from_sitemap in
              requests t1 = [] /\ pauses t1 = 0 /\ printed t1 = []).
  { unfold extract_urls_from_sitemap.
    destruct (sitemap_locs env); repeat split. }
  destruct extract_urls_from_sitemap as [urls t1]. cbn [fst snd] in *.
  cbv zeta in U. destruct U as (U1 & U2 & U3).
  pose proof (scrape_results (length urls) urls 1 [] []) as R.
  pose proof (scrape_trace (length urls) urls 1 [] []) as T.
  destruct (scrape (length urls) 1 urls [] []) as [[all_stores errors] t3].
  cbv zeta in T. cbn [fst snd] in R, T. injection R as -> ->.
  destruct T as (T1 & T2 & T3).
  set (t2 := if verbose then [Err (DFound (length urls))] else []).
  set (t4 := Err (DExtracted (length (successes urls))) :: _).
  assert (V2 : requests t2 = [] /\ pauses t2 = 0 /\ printed t2 = [])
    by (unfold t2; destruct verbose; repeat split).
  destruct V2 as (V1 & V2 & V3).
  assert (V4 : requests t4 = [] /\ pauses t4 = 0 /\ printed t4 = []).
  { unfold t4. generalize (failures 1 urls). intros [|e0 l]; [repeat split|].
    cut (forall l' : list (nat * option str),
           let t := map (fun '(idx, url) => Err (DFailedItem idx url)) l' in
           requests t = [] /\ pauses t = 0 /\ printed t = []).
    { intros C. destruct (C (e0 :: l)) as (C1 & C2 & C3).
      cbv zeta in C1, C2, C3.
      change (requests (Err (DExtracted (length (successes urls)))
                :: Err (DFailed (length (e0 :: l)))
                :: map (fun '(idx, url) => Err (DFailedItem idx url))
                     (e0 :: l)))
        with (requests (map (fun '(idx, url) => Err (DFailedItem idx url))
                          (e0 :: l))).
      change (pauses (Err (DExtracted (length (successes urls)))
                :: Err (DFailed (length (e0 :: l)))
                :: map (fun '(idx, url) => Err (DFailedItem idx url))
                     (e0 :: l)))
        with (pauses (map (fun '(idx, url) => Err (DFailedItem idx url))
                        (e0 :: l))).
      change (printed (Err (DExtracted (length (successes urls)))
                :: Err (DFailed (length (e0 :: l)))
                :: map (fun '(idx, url) => Err (DFailedItem idx url))
                     (e0 :: l)))
        with (printed (map (fun '(idx, url) => Err (DFailedItem idx url))
                         (e0 :: l))).
      auto. }
    induction l' as [|[idx url] l' IH]; [repeat split|].
    cbv zeta in IH |- *. destruct IH as (I1 & I2 & I3). repeat split; auto. }
  destruct V4 as (W1 & W2 & W3).
  assert (P : forall last : event,
            requests [last] = [] -> pauses [last] = 0 ->
            requests (t1 ++ t2 ++ t3 ++ t4 ++ [last]) = url_strings urls /\
            pauses (t1 ++ t2 ++ t3 ++ t4 ++ [last]) = length urls /\
            printed (t1 ++ t2 ++ t3 ++ t4 ++ [last]) = printed [last] /\
            printed (t1 ++ t2 ++ t3 ++ t4) = []).
  { intros last L1 L2.
    rewrite !requests_app, !pauses_app, !printed_app, U1, U2, U3, V1, V2, V3,
      T1, T2, T3, W1, W2, W3, L1, L2.
    cbn [app]. rewrite app_nil_r. repeat split. lia. }
  destruct (sort_stores (successes urls)) as [sorted|e]; cbn [fst snd].
  - destruct (P (Out sorted) eq_refl eq_refl) as (P1 & P2 & P3 & P4).
    repeat split; auto.
    intros stores H. rewrite P3 in H. destruct H as [<-|[]].
    exists (t1 ++ t2 ++ t3 ++ t4). split; [|exact P4].
    now rewrite <- !app_assoc.
  - destruct (P (Err (DTraceback e)) eq_refl eq_refl) as (P1 & P2 & P3 & P4).
    repeat split; auto.
    intros stores H. rewrite P3 in H. destruct H.
Qed.




(** ** The order of the output *)

Lemma str_ltb_asym (a : str) :
  forall b, str_ltb a b = true -> str_ltb b a = false.
Proof.
  induction a as [|x a IH]; intros [|y b]; simpl; auto; try discriminate.
  intros H. apply orb_true_iff in H.
  apply orb_false_iff. destruct H as [H|H].
  - apply N.ltb_lt in H. split.
    + apply N.ltb_ge. lia.
    + apply andb_false_iff. left. apply N.eqb_neq. lia.
  - apply andb_true_iff in H. destruct H as [H1 H2].
    apply N.eqb_eq in H1. subst y. split.
    + apply N.ltb_irrefl.
    + rewrite N.eqb_refl. simpl. auto.
Qed.

Lemma str_le_trans (a : str) :
  forall b c, str_le a b -> str_le b c -> str_le a c.
Proof.
  unfold str_le.
  induction a as [|x a IH]; intros [|y b] [|z c]; simpl; auto;
    try discriminate.
  intros H1 H2.
  apply orb_false_iff in H1. destruct H1 as [L1 E1].
  apply orb_false_iff in H2. destruct H2 as [L2 E2].
  apply N.ltb_ge in L1. apply N.ltb_ge in L2.
  apply orb_false_iff. split; [apply N.ltb_ge; lia|].
  destruct (N.eqb_spec z x) as [->|]; auto. simpl.
  assert (y = x) by lia. subst y.
  rewrite N.eqb_refl in E1, E2. simpl in E1, E2. eauto.
Qed.

Section SortedOrder.
Context {A : Type} (key : A -> pyval).

Lemma insert_perm (x : A) (l l' : list A) :
  insert_by key x l = Ok l' -> Permutation (x :: l) l'.
Proof.
  revert l'. induction l as [|y l IH]; simpl; intros l'.
  - intros [= <-]. apply Permutation_refl.
  - destruct (key_lt (key x) (key y)) as [[|]|e]; simpl; try discriminate.
    + intros [= <-]. apply Permutation_refl.
    + destruct (insert_by key x l) as [r|e]; simpl; try discriminate.
      intros [= <-]. rewrite perm_swap. apply perm_skip. now apply IH.
Qed.

Lemma fold_perm (l : list A) :
  forall acc l',
    fold_left (sort_step key) l (Ok acc) = Ok l' -> Permutation (acc ++ l) l'.
Proof.
  induction l as [|x l IH]; simpl; intros acc l'.
  - intros [= <-]. rewrite app_nil_r. apply Permutation_refl.
  - destruct (insert_by key x acc) as [acc'|e] eqn:E.
    + intros H. apply IH in H. rewrite <- H.
      rewrite <- Permutation_middle.
      change (x :: acc ++ l) with ((x :: acc) ++ l).
      apply Permutation_app_tail. now apply insert_perm.
    + rewrite fold_raise. discriminate.
Qed.

Lemma py_sorted_perm (l l' : list A) :
  py_sorted key l = Ok l' -> Permutation l l'.
Proof. intros H. now apply (fold_perm l []) in H. Qed.

Lemma insert_sorted (x : A) (l l' : list A) :
  StronglySorted (key_le key) l ->
  insert_by key x l = Ok l' ->
  l <> [] ->
  StronglySorted (key_le key) l'.
Proof.
  intros Hs. revert l'. induction Hs as [|y l Hs IH Hy]; intros l' H Hn.
  - congruence.
  - simpl in H. unfold key_lt in H.
    destruct (key x) as [|a| | |] eqn:Ex; try discriminate.
    destruct (key y) as [|b| | |] eqn:Ey; try discriminate.
    simpl in H. destruct (str_ltb a b) eqn:Lt.
    + injection H as <-.
      assert (Hxy : key_le key x y).
      { exists a, b. repeat split; auto. now apply str_ltb_asym. }
      constructor; [constructor; auto|].
      constructor; auto.
      rewrite Forall_forall in *. intros z Hz. specialize (Hy z Hz).
      destruct Hxy as (a1 & b1 & E1 & E2 & L1).
      destruct Hy as (b2 & c & E3 & E4 & L2).
      exists a1, c. repeat split; auto.
      assert (b1 = b2) by congruence. subst b2.
      eapply str_le_trans; eauto.
    + destruct (insert_by key x l) as [r|e] eqn:E; simpl in H;
        try discriminate.
      injection H as <-.
      assert (Hyx : key_le key y x) by (exists b, a; auto).
      constructor.
      * destruct l as [|z l].
        -- simpl in E. injection E as <-. constructor; constructor.
        -- apply IH; auto. discriminate.
      * rewrite Forall_forall in *. intros z Hz.
        apply (Permutation_in _ (Permutation_sym (insert_perm _ _ E))) in Hz.
        destruct Hz as [<-|Hz]; auto.
Qed.

Lemma fold_sorted (l : list A) :
  forall acc l',
    StronglySorted (key_le key) acc -> acc <> [] ->
    fold_left (sort_step key) l (Ok acc) = Ok l' ->
    StronglySorted (key_le key) l'.
Proof.
  induction l as [|x l IH]; simpl; intros acc l' Hs Hn.
  - now intros [= <-].
  - destruct (insert_by key x acc) as [acc'|e] eqn:E.
    + apply IH.
      * eapply insert_sorted; eauto.
      * intros ->. apply insert_perm in E.
        apply Permutation_sym, Permutation_nil in E. discriminate.
    + rewrite fold_raise. discriminate.
Qed.

(** When the sort returns, its result is in the order of the keys: with
    two or more elements every key is a string. *)
Lemma py_sorted_sorted (l l' : list A) :
  py_sorted key l = Ok l' ->
  l' = l /\ length l <= 1 \/ StronglySorted (key_le key) l'.
Proof.
  destruct l as [|x1 [|x2 l]].
  - intros [= <-]. left. auto.
  - intros [= <-]. left. auto.
  - intros H. right.
    change (fold_left (sort_step key) l (insert_by key x2 [x1]) = Ok l')
      in H.
    destruct (insert_by key x2 [x1]) as [acc|e] eqn:E.
    + apply (fold_sorted l) in H; auto.
      * simpl in E. unfold key_lt in E.
        destruct (key x2) as [|a| | |] eqn:E2; try discriminate.
        destruct (key x1) as [|b| | |] eqn:E1; try discriminate.
        simpl in E. destruct (str_ltb a b) eqn:Lt; injection E as <-.
        -- constructor; [constructor; constructor|].
           constructor; auto. exists a, b. repeat split; auto.
           now apply str_ltb_asym.
        -- constructor; [constructor; constructor|].
           constructor; auto. exists b, a. repeat split; auto.
      * intros ->. apply insert_perm in E.
        apply Permutation_sym, Permutation_nil in E. discriminate.
    + rewrite fold_raise in H. discriminate.
Qed.

Lemma py_sorted_ok (l : list A) :
  forallb (str_keyed key) l = true -> exists l', py_sorted key l = Ok l'.
Proof.
  unfold py_sorted.
  change (fun acc x => sorted_so_far <- acc;; insert_by key x sorted_so_far)
    with (sort_step key).
  assert (G : forall l acc, forallb (str_keyed key) acc = true ->
            forallb (str_keyed key) l = true ->
            exists l', fold_left (sort_step key) l (Ok acc) = Ok l').
  { clear l. induction l as [|x l IH]; simpl; intros acc Ha Hl; eauto.
    apply andb_true_iff in Hl. destruct Hl as [Hx Hl].
    destruct (@insert_str _ key x acc Hx Ha) as (acc' & -> & _ & Ha').
    now apply IH. }
  intros H. now apply G.
Qed.
End SortedOrder.

Lemma key_le_id_le (x y : dict) :
  key_le (fun x => dict_get x "locationId" (VStr [])) x y -> id_le x y.
Proof.
  assert (K : forall (z : dict) (a : str),
            dict_get z "locationId" (VStr []) = VStr a -> id_key z = a).
  { intros z a. unfold dict_get, id_key.
    destruct (lookup z "locationId") as [[]|]; congruence. }
  intros (a & b & Ea & Eb & L). unfold id_le.
  now rewrite (K _ _ Ea), (K _ _ Eb).
Qed.

Lemma strongly_sorted_impl {A} (R R' : A -> A -> Prop) (l : list A) :
  (forall x y, R x y -> R' x y) ->
  StronglySorted R l -> StronglySorted R' l.
Proof.
  intros HR. induction 1 as [|x l Hs IH Hx]; constructor; auto.
  rewrite Forall_forall in *. auto.
Qed.

(** X8.  Whenever the sort of the records returns, its result holds the
    same records, each as often as before, in ascending order of their
    locationId strings compared code point by code point: every record
    stands before all records with a greater locationId. *)
Theorem sort_stores_sorted (stores sorted : list dict) :
  sort_stores stores = Ok sorted ->
  Permutation stores sorted /\ StronglySorted id_le sorted.
Proof.
  intros H. split; [now apply py_sorted_perm in H|].
  apply py_sorted_sorted in H. destruct H as [[-> L]|H].
  - destruct stores as [|x [|y l]]; simpl in L; try lia;
      repeat constructor.
  - eapply strongly_sorted_impl; [|exact H]. apply key_le_id_le.
Qed.

Lemma sort_stores_decide (stores : list dict) :
  if (length stores <=? 1) || forallb has_id stores
  then exists sorted, sort_stores stores = Ok sorted
  else sort_stores stores = Raise TypeError.
Proof.
  destruct (Nat.leb_spec (length stores) 1) as [L|L]; simpl.
  - destruct stores as [|x [|y l]]; simpl in L; try lia;
      eexists; reflexivity.
  - destruct (forallb has_id stores) eqn:E.
    + now apply py_sorted_ok.
    + apply py_sorted_raises; [lia|exact E].
Qed.

(** X9.  The sort of the records returns exactly when there is at most one
    record or every record has a string as locationId; otherwise it raises
    TypeError. *)
Theorem sort_stores_returns_iff (stores : list dict) :
  ((exists sorted, sort_stores stores = Ok sorted) <->
   (length stores <= 1 \/ forallb has_id stores = true)) /\
  ((forall sorted, sort_stores stores <> Ok sorted) ->
   sort_stores stores = Raise TypeError).
Proof.
  pose proof (sort_stores_decide stores) as D.
  destruct (Nat.leb_spec (length stores) 1) as [L|L]; simpl in D.
  - split; [split; auto|]. intros H. destruct D as [sorted D].
    now apply H in D.
  - destruct (forallb has_id stores) eqn:E.
    + split; [split; auto|]. intros H. destruct D as [sorted D].
      now apply H in D.
    + split; [|auto]. split.
      * intros [sorted H]. congruence.
      * intros [H|H]; [lia|discriminate].
Qed.

Lemma successes_origin (urls : list (option str)) (r : dict) :
  In r (successes urls) ->
  exists x html, In (Some x) urls /\ urlopen env x = Ok html /\
                 extract html x = Some r.
Proof.
  unfold successes. rewrite in_flat_map. intros (u & Hu & Hr).
  destruct u as [x|]; [|simpl in Hr; contradiction].
  unfold get_store_details in Hr.
  destruct (urlopen env x) as [html|e] eqn:Ef; simpl in Hr;
    [|contradiction].
  unfold extract.
  destruct (get_store_details_body html x) as [[[|kv d]|]|e] eqn:Eb;
    simpl in Hr; try contradiction.
  destruct Hr as [<-|[]]. exists x, html. rewrite Eb. auto.
Qed.

(** X10.  What a run prints is the list of the records of the loop, each
    once, reordered by the sort: every printed record is the extraction of
    a page that was fetched from a URL of the sitemap, and the list is in
    ascending order of locationId. *)
Theorem printed_records (stores : list dict) :
  In stores (printed (snd main)) ->
  Permutation (successes (fst extract_urls_from_sitemap)) stores /\
  StronglySorted id_le stores /\
  forall r, In r stores ->
    exists x html, In (Some x) (fst extract_urls_from_sitemap) /\
                   urlopen env x = Ok html /\ extract html x = Some r.
Proof.
  destruct main_summary as (_ & _ & _ & H3 & _). cbv zeta in H3.
  rewrite H3. destruct (sitemap_exists env); [|intros []].
  destruct (sort_stores _) as [sorted|e] eqn:E; [|intros []].
  intros [<-|[]].
  assert (P : Permutation (successes (fst extract_urls_from_sitemap)) sorted)
    by now apply py_sorted_perm in E.
  split; [exact P|]. split.
  - apply py_sorted_sorted in E. destruct E as [[-> L]|H].
    + destruct (successes _) as [|x [|y l]]; simpl in L; try lia;
        repeat constructor.
    + eapply strongly_sorted_impl; [|exact H]. apply key_le_id_le.
  - intros r Hr. apply successes_origin.
    eapply Permutation_in; [apply Permutation_sym; exact P|exact Hr].
Qed.


(** ** The shape of extracted text *)

Lemma span_space (s : str) :
  exists w rest, s = w ++ rest /\ Forall (fun c => py_isspace c = true) w /\
                 match rest with
                 | c :: _ => py_isspace c = false
                 | [] => True
                 end.
Proof.
  induction s as [|c s IH].
  - exists [], []. auto.
  - destruct (py_isspace c) eqn:E.
    + destruct IH as (w & rest & -> & Hw & Hr).
      exists (c :: w), rest. auto.
    + exists [], (c :: s). auto.
Qed.

Lemma ws_match_run (c : char) (w rest : str) :
  py_isspace c = true -> Forall (fun c => py_isspace c = true) w ->
  match rest with c' :: _ => py_isspace c' = false | [] => True end ->
  match_at ws_re false (c :: w ++ rest) = Some ([c :: w], rest).
Proof.
  intros H Hw Hr. unfold match_at, ws_re, Plus. cbn [run]. simpl atom_ok.
  rewrite H.
  erewrite rep_greedy_all; [reflexivity|exact Hw|exact Hr|].
  cbn [andb]. do 3 f_equal.
  apply (firstn_app_sub (c :: w) rest).
Qed.

Lemma scan_skip (r : regex) (w rest : str) :
  scan r (length w) (w ++ rest) = scan r 0 rest.
Proof.
  induction w as [|c w IH]; [reflexivity|].
  cbn [length app]. destruct rest; cbn [scan]; exact IH.
Qed.

Lemma scan_hit_run (r : regex) (c : char) (w rest : str) (gs : list str) :
  match_at r false (c :: w ++ rest) = Some (gs, rest) ->
  scan r 0 (c :: w ++ rest) = Hit gs :: scan r 0 rest.
Proof.
  intros H. cbn [scan]. rewrite H.
  replace (length (c :: w ++ rest) - length rest) with (S (length w))
    by (cbn [length]; rewrite length_app; lia).
  now rewrite scan_skip.
Qed.

Lemma collapse_keep (c : char) (s : str) :
  py_isspace c = false ->
  sub ws_re [space] (c :: s) = c :: sub ws_re [space] s.
Proof.
  intros H. unfold sub. now rewrite scan_copy by now apply ws_no_match.
Qed.

Lemma collapse_run (c : char) (w rest : str) :
  py_isspace c = true -> Forall (fun c => py_isspace c = true) w ->
  match rest with c' :: _ => py_isspace c' = false | [] => True end ->
  sub ws_re [space] (c :: w ++ rest) = space :: sub ws_re [space] rest.
Proof.
  intros H Hw Hr. unfold sub.
  now rewrite (@scan_hit_run ws_re c w rest [c :: w]
                 (@ws_match_run c w rest H Hw Hr)).
Qed.

Lemma ends_clean_cons (c : char) (s : str) :
  s <> [] -> starts_clean (rev (c :: s)) = starts_clean (rev s).
Proof.
  intros Hn. cbn [rev].
  destruct (rev s) as [|d r] eqn:E; [|reflexivity].
  apply (f_equal (@rev char)) in E. rewrite rev_involutive in E.
  simpl in E. congruence.
Qed.

Lemma ends_clean_app (w rest : str) :
  rest <> [] -> starts_clean (rev (w ++ rest)) = starts_clean (rev rest).
Proof.
  intros Hn. rewrite rev_app_distr.
  destruct (rev rest) as [|d r] eqn:E; [|reflexivity].
  apply (f_equal (@rev char)) in E. rewrite rev_involutive in E.
  simpl in E. congruence.
Qed.

Lemma spaces_not_clean (l : str) :
  Forall (fun c => py_isspace c = true) l -> l <> [] ->
  starts_clean l = false.
Proof.
  intros H Hn. destruct l as [|c l]; [congruence|].
  inversion H as [|? ? Hc _]; subst. simpl. now rewrite Hc.
Qed.

(** Collapsing the whitespace of any text leaves single spaces, keeps a
    clean end clean and keeps a text that is not empty not empty. *)
Lemma collapse_shape (n : nat) :
  forall s, length s <= n ->
    single_spaced (sub ws_re [space] s) = true /\
    (starts_clean (rev s) = true ->
     starts_clean (rev (sub ws_re [space] s)) = true) /\
    (s <> [] -> sub ws_re [space] s <> []).
Proof.
  induction n as [|n IH]; intros s L.
  - destruct s; [|simpl in L; lia]. repeat split; auto.
  - destruct s as [|c s]; [repeat split; auto|].
    simpl in L. destruct (py_isspace c) eqn:Ec.
    + destruct (span_space s) as (w & rest & -> & Hw & Hr).
      rewrite (@collapse_run c w rest Ec Hw Hr).
      assert (Lr : length rest <= n) by (rewrite length_app in L; lia).
      destruct (IH rest Lr) as (I1 & I2 & I3).
      split; [|split; [|discriminate]].
      * cbn [single_spaced]. rewrite I1.
        destruct rest as [|c' r']; [reflexivity|].
        rewrite (@collapse_keep c' r' Hr). now rewrite Hr.
      * intros He. destruct rest as [|c' r'].
        -- rewrite app_nil_r in He.
           rewrite spaces_not_clean in He; [discriminate| |].
           ++ apply Forall_rev. constructor; auto.
           ++ simpl. destruct (rev w); discriminate.
        -- change (c :: w ++ c' :: r') with ((c :: w) ++ c' :: r') in He.
           rewrite ends_clean_app in He by discriminate.
           rewrite ends_clean_cons by (apply I3; discriminate). auto.
    + rewrite (@collapse_keep c s Ec).
      assert (Ls : length s <= n) by lia.
      destruct (IH s Ls) as (I1 & I2 & I3).
      split; [|split; [|discriminate]].
      * cbn [single_spaced]. now rewrite Ec, I1.
      * intros He. destruct s as [|c' s'].
        -- simpl. now rewrite Ec.
        -- rewrite ends_clean_cons in He by discriminate.
           rewrite ends_clean_cons by (apply I3; discriminate). auto.
Qed.

Lemma lstrip_starts_clean (s : str) : starts_clean (lstrip s) = true.
Proof.
  induction s as [|c s IH]; simpl; auto.
  destruct (py_isspace c) eqn:E; auto. simpl. now rewrite E.
Qed.

Lemma lstrip_snoc (a : str) (c : char) :
  py_isspace c = false -> lstrip (a ++ [c]) = lstrip a ++ [c].
Proof.
  intros H. induction a as [|d a IH]; simpl.
  - now rewrite H.
  - destruct (py_isspace d); auto.
Qed.

Lemma strip_shape (s : str) :
  starts_clean (strip s) = true /\ starts_clean (rev (strip s)) = true.
Proof.
  unfold strip, rstrip. split.
  - pose proof (lstrip_starts_clean s) as H.
    destruct (lstrip s) as [|c x]; [reflexivity|].
    simpl in H. apply negb_true_iff in H.
    cbn [rev]. rewrite (@lstrip_snoc (rev x) c H), rev_app_distr. simpl.
    now rewrite H.
  - rewrite rev_involutive. apply lstrip_starts_clean.
Qed.

Lemma clean_text_shape (s : str) :
  let t := clean_text s in
  single_spaced t = true /\ starts_clean t = true /\
  starts_clean (rev t) = true.
Proof.
  cbv zeta. unfold clean_text.
  destruct (strip_shape (sub tag_re [] s)) as [S1 S2].
  set (x := strip (sub tag_re [] s)) in *.
  destruct (@collapse_shape (length x) x (le_n _)) as (C1 & C2 & _).
  repeat split; auto.
  destruct x as [|c x']; [reflexivity|].
  simpl in S1. apply negb_true_iff in S1.
  rewrite (@collapse_keep c x' S1). simpl. now rewrite S1.
Qed.

Lemma finish_shape (clean : bool) (g : str) :
  let t := finish clean g in
  starts_clean t = true /\ starts_clean (rev t) = true /\
  (clean = true -> single_spaced t = true).
Proof.
  cbv zeta. unfold finish. destruct clean.
  - destruct (clean_text_shape (strip g)) as (C1 & C2 & C3). auto.
  - destruct (strip_shape g) as [S1 S2]. repeat split; auto. discriminate.
Qed.

(** X11.  Whatever text [extract_text] returns has no whitespace at its
    start or end; with cleaning on, every whitespace character left in it
    is a single space between two other characters. *)
Theorem extracted_text_trimmed (pattern : regex) (text : str) (group : nat)
    (clean : bool) (t : str) :
  extract_text pattern text group clean = Ok (Some t) ->
  starts_clean t = true /\ starts_clean (rev t) = true /\
  (clean = true -> single_spaced t = true).
Proof.
  unfold extract_text.
  destruct (search pattern text) as [gs|]; [|discriminate].
  destruct (match_group gs group) as [g|e]; simpl; [|discriminate].
  intros [= <-]. apply finish_shape.
Qed.

(** X12.  Cleaning is idempotent on every text whose cleaned form holds no
    tag: a second cleaning changes nothing unless the first one brought a
    new tag together. *)
Theorem cleaning_idempotent_without_tag (s : str) :
  search tag_re (clean_text s) = None ->
  clean_text (clean_text s) = clean_text s.
Proof.
  intros Ht. destruct (clean_text_shape s) as (C1 & C2 & C3).
  cbv zeta in *. set (t := clean_text s) in *.
  unfold clean_text at 1.
  now rewrite (@sub_no_match tag_re [] t Ht), (@strip_clean t C2 C3),
    sub_ws_single_spaced.
Qed.


Lemma capture_shape (r : regex) (text t : str) :
  capture r text true = Some t ->
  starts_clean t = true /\ starts_clean (rev t) = true /\
  single_spaced t = true.
Proof.
  unfold capture. destruct (search r text) as [gs|]; [|discriminate].
  intros [= <-]. destruct (finish_shape true (nth 1 gs [])) as (A & B & C).
  auto.
Qed.

(** X13.  In every record the extraction gives, the name, the phone
    number, the city, the state and the postcode, where they are not null,
    are trimmed and hold single spaces as their only whitespace. *)
Theorem record_text_fields (html url : str) (r : dict) (key : string)
    (t : str) :
  extract html url = Some r ->
  In key ["publicName"; "phoneNumber"; "city"; "state"; "postcode"]%string ->
  lookup r key = Some (VStr t) ->
  starts_clean t = true /\ starts_clean (rev t) = true /\
  single_spaced t = true.
Proof.
  intros E Hk Hl. apply extract_record in E.
  destruct E as (ci & st & pc & lat & lng & Ea & _ & _ & ->).
  assert (Hb : exists b,
            (ci = None \/ ci = capture locality_re b true) /\
            (st = None \/ st = capture region_re b true) /\
            (pc = None \/ pc = capture postal_re b true)).
  { destruct (capture address_re html false) as [[|c b]|].
    - simpl in Ea. injection Ea as <- <- <-. exists []. auto.
    - rewrite address_fields_block in Ea.
      destruct (truthy (capture street_re (c :: b) false)); [discriminate|].
      injection Ea as <- <- <-. exists (c :: b). auto.
    - simpl in Ea. injection Ea as <- <- <-. exists []. auto. }
  destruct Hb as (b & Hci & Hst & Hpc).
  assert (O : forall (o : option str) (re : regex) (text : str),
            o = None \/ o = capture re text true ->
            of_opt o = VStr t ->
            starts_clean t = true /\ starts_clean (rev t) = true /\
            single_spaced t = true).
  { intros o re text [->| ->]; [discriminate|].
    destruct (capture re text true) as [t'|] eqn:Ec; [|discriminate].
    intros [= <-]. now apply capture_shape in Ec. }
  simpl in Hk.
  destruct Hk as [<-|[<-|[<-|[<-|[<-|[]]]]]]; simpl in Hl;
    injection Hl as Hl.
  - apply (O (capture heading_re html true) heading_re html); auto.
  - apply (O (capture phone_re html true) phone_re html); auto.
  - apply (O ci locality_re b); auto.
  - apply (O st region_re b); auto.
  - apply (O pc postal_re b); auto.
Qed.

(** X14.  Whether a page gives a record does not depend on the URL it was
    fetched from: the URL only fills the fields url and locationId. *)
Theorem record_whatever_url (html url1 url2 : str) (r1 : dict) :
  extract html url1 = Some r1 ->
  exists r2, extract html url2 = Some r2 /\
    forall key, key <> "url"%string -> key <> "locationId"%string ->
                lookup r2 key = lookup r1 key.
Proof.
  intros E1.
  assert (X : exists r, extract html url2 = Some r).
  { apply extract_some_iff. apply (extract_some_iff html url1). eauto. }
  destruct X as [r2 E2]. exists r2. split; [exact E2|].
  apply extract_record in E1. apply extract_record in E2.
  destruct E1 as (ci & st & pc & lat & lng & Ea & El & Eg & ->).
  destruct E2 as (ci' & st' & pc' & lat' & lng' & Ea' & El' & Eg' & ->).
  rewrite Ea in Ea'. injection Ea' as <- <- <-.
  rewrite El in El'. injection El' as <-.
  rewrite Eg in Eg'. injection Eg' as <-.
  intros key K1 K2. unfold store_data. cbn [lookup].
  destruct (String.eqb_spec "locationId" key); [congruence|].
  repeat (match goal with
          | |- context [String.eqb ?k key] =>
              destruct (String.eqb_spec k key); [try reflexivity; congruence|]
          end).
  reflexivity.
Qed.

Section FinalNewline.

Hypothesis uni_decimal_ascii :
  forall c, (c < 128)%N -> uni_decimal c = ascii_decimal c.

(** X15.  One newline after the URL, as a [loc] element written on lines
    of its own leaves it, does not change the locationId: [$] also matches
    before a final newline. *)
Theorem location_id_final_newline (url : str) :
  ends_in_newline url = false ->
  location_id (url ++ [newline]) = location_id url.
Proof.
  intros Hn. rewrite !location_id_ok. unfold url_id.
  destruct (search id_re url) as [gs|] eqn:E.
  - apply search_id_elim in E.
    destruct E as (p & d & rest & -> & Hd & Hds & He & ->).
    destruct (at_eol_cases _ He) as [->| ->].
    + rewrite app_nil_r, <- app_assoc. cbn [app].
      now rewrite (@search_id_intro uni_decimal_ascii p d [newline] Hd Hds
                     eq_refl).
    + exfalso.
      change (p ++ slash :: d ++ [newline])
        with (p ++ (slash :: d) ++ [newline]) in Hn.
      rewrite app_assoc, ends_in_newline_app in Hn. discriminate.
  - destruct (search id_re (url ++ [newline])) as [gs|] eqn:E';
      [|reflexivity].
    exfalso. apply search_id_elim in E'.
    destruct E' as (p & d & rest & Hu & Hd & Hds & He & ->).
    destruct (at_eol_cases _ He) as [->| ->].
    + rewrite app_nil_r in Hu.
      destruct (exists_last Hd) as (d' & c & ->).
      change (p ++ slash :: d' ++ [c]) with (p ++ (slash :: d') ++ [c]) in Hu.
      rewrite app_assoc in Hu. apply app_inj_tail in Hu.
      destruct Hu as [_ <-].
      unfold digits in Hds. rewrite Forall_forall in Hds.
      assert (Hi : In newline (d' ++ [newline]))
        by (apply in_or_app; right; left; reflexivity).
      specialize (Hds newline Hi).
      rewrite (newline_no_digit uni_decimal_ascii) in Hds. discriminate.
    + change (p ++ slash :: d ++ [newline])
        with (p ++ (slash :: d) ++ [newline]) in Hu.
      rewrite app_assoc in Hu. apply app_inj_tail in Hu.
      destruct Hu as [-> _].
      rewrite <- (app_nil_r d) in E at 1.
      rewrite (@search_id_intro uni_decimal_ascii p d [] Hd Hds eq_refl)
        in E.
      discriminate.
Qed.

End FinalNewline.



Lemma search_span_marker (name text : str) :
  search (span_re name) text <> None ->
  occurs (lit "<span itemprop=" ++ [quote] ++ name ++ [quote] ++ lit ">")
         text.
Proof.
  unfold span_re. cbn [seq]. apply search_literal.
Qed.

(** X18.  Fields whose marker is nowhere on the page stay empty: a record
    of a page without the opening tag of the telephone span has a null
    phoneNumber, and a record of a page without the opening tag of the
    hours container has an empty list of trading hours. *)
Theorem absent_markers (html url : str) (r : dict) :
  extract html url = Some r ->
  (~ occurs (lit "<span itemprop=" ++ [quote] ++ lit "telephone" ++ [quote]
             ++ lit ">") html ->
   lookup r "phoneNumber" = Some VNone) /\
  (~ occurs (lit "<div class=" ++ [quote] ++ lit "store-hours" ++ [quote]
             ++ lit ">") html ->
   lookup r "tradingHours" = Some (VList [])).
Proof.
  intros E. apply extract_record in E.
  destruct E as (ci & st & pc & lat & lng & _ & _ & _ & ->).
  split; intros H.
  - assert (C : capture phone_re html true = None).
    { apply capture_none.
      destruct (search phone_re html) eqn:S; [|reflexivity].
      exfalso. apply H. apply search_span_marker. unfold phone_re in S.
      congruence. }
    cbn [lookup store_data String.eqb Ascii.eqb Bool.eqb]. now rewrite C.
  - assert (C : capture hours_re html false = None).
    { apply capture_none.
      destruct (search hours_re html) eqn:S; [|reflexivity].
      exfalso. apply H.
      apply (@search_literal _ (seq [Group (Rep Lazy AnyChr);
                                    chars (lit "</div>")])).
      unfold hours_re in S. cbn [seq] in S |- *. congruence. }
    unfold hour_entries, hour_pairs. rewrite C. reflexivity.
Qed.

End Python.

Arguments VNone {F}.
Arguments VStr {F} s.
Arguments Get {F} url.
Arguments Sleep {F}.
Arguments DFetching {F} url.
Arguments DErrFetching {F} url e.
Arguments DErrProcessing {F} url e.
Arguments DErrSitemap {F} e.
Arguments DNoSitemap {F}.
Arguments DFound {F} n.
Arguments DItemFailed {F} i n.
Arguments DExtracted {F} n.
Arguments DFailed {F} n.
Arguments DFailedItem {F} i url.
Arguments DTraceback {F} e.
Arguments sample_store {F} id.
Arguments trading_hour upper {F} day hours.
Arguments extract_urls_from_sitemap {F} env.

(** ** The sitemap and the driver *)

(** C8.  Whatever exception reading the sitemap raises, the reader reports
    it and returns no URL, and the run goes on to print an empty list and
    exit with status 0.  When the sitemap file does not exist the program
    reports it and exits with status 1, and no request is made. *)
Theorem sitemap_errors (uni_decimal : char -> bool) (upper : str -> str)
    (F : Type) (py_float : str -> option F) (fetch : str -> res str)
    (verbose : bool) :
  (forall e there,
     extract_urls_from_sitemap (F:=F)
       {| sitemap_exists := there; sitemap_locs := Raise e;
          urlopen := fetch |}
     = ([], [Err (DErrSitemap e)])) /\
  (forall e,
     main uni_decimal upper py_float
       {| sitemap_exists := true; sitemap_locs := Raise e;
          urlopen := fetch |} verbose
     = (0, Err (DErrSitemap e)
           :: (if verbose then [Err (DFound 0)] else [])
           ++ [Err (DExtracted 0); Out []])) /\
  (forall locs,
     let run := main uni_decimal upper py_float
                  {| sitemap_exists := false; sitemap_locs := locs;
                     urlopen := fetch |} verbose in
     run = (1, [Err DNoSitemap]) /\ fst run <> 0 /\
     forall url, ~ In (Get url) (snd run)).
Proof.
  split; [|split].
  - reflexivity.
  - intros e. destruct verbose; reflexivity.
  - intros locs. cbv zeta. unfold main. cbn [sitemap_exists negb].
    repeat split.
    + discriminate.
    + intros url [H|[]]. discriminate.
Qed.

(** ** Runs of the model *)

(** The failing input of C1, through the whole program: three pages, the
    second URL without a number.  The run ends with the TypeError of the
    sort and prints no JSON, where sorting with null as the empty string
    would give null, "0002", "0005". *)
Lemma three_stores_crash :
  main ascii_decimal ascii_upper dec_float three_stores false
  = (1, [Get (lit "https://example.com/stores/0005"); Sleep;
         Get (lit "https://example.com/stores/"); Sleep;
         Get (lit "https://example.com/stores/0002"); Sleep;
         Err (DExtracted 3); Err (DTraceback TypeError)]) /\
  claimed_sort_stores
    [sample_store (F:=decimal) (Some (lit "0005")); sample_store None;
     sample_store (Some (lit "0002"))]
  = Ok [sample_store None; sample_store (Some (lit "0002"));
        sample_store (Some (lit "0005"))].
Proof. split; vm_compute; reflexivity. Qed.

Lemma sort_stores_null_raises_witness :
  sort_stores
    [sample_store (F:=decimal) (Some (lit "0005")); sample_store None;
     sample_store (Some (lit "0002"))]
  = Raise TypeError.
Proof.
  apply (@sort_stores_null_raises decimal _ (sample_store None)).
  - simpl. lia.
  - right. left. reflexivity.
  - reflexivity.
Defined.

Lemma unparseable_coordinate_drops_record_witness :
  get_store_details ascii_decimal ascii_upper dec_float
    (one_page page_bad_lat) false (Some url_42)
  = (None, [Get url_42; Err (DErrProcessing (Some url_42) ValueError)]).
Proof.
  refine (proj2 (@unparseable_coordinate_drops_record ascii_decimal
                   ascii_upper decimal dec_float (one_page page_bad_lat)
                   false url_42 page_bad_lat eq_refl _) _ _).
  - left. exists 97%N, (lit "bc"). split; vm_compute; reflexivity.
  - vm_compute. reflexivity.
  - vm_compute. reflexivity.
Defined.

(** C2 as stated fails: the name of this page is derivable and its
    latitude attribute holds "abc", yet no record comes out. *)
Lemma bad_latitude_no_record :
  truthy (capture ascii_decimal heading_re page_bad_lat true) = true /\
  capture ascii_decimal lat_re page_bad_lat true = Some (lit "abc") /\
  dec_float (lit "abc") = None /\
  extract ascii_decimal ascii_upper dec_float page_bad_lat url_42 = None.
Proof. repeat split; vm_compute; reflexivity. Qed.



Lemma location_id_after_slash_witness :
  location_id ascii_decimal url_42 = Ok (Some (lit "00042")).
Proof.
  destruct (@location_id_after_slash ascii_decimal (fun c _ => eq_refl))
    as (_ & H & _).
  apply (H url_42 (lit "00042") eq_refl). split; [discriminate|]. split.
  - repeat constructor.
  - exists (lit "https://example.com/stores"). reflexivity.
Defined.

(** [$] also matches before a final newline, which a [loc] element may
    carry: the number is still found. *)
Lemma final_newline_still_matches :
  location_id ascii_decimal (url_42 ++ [newline]) = Ok (Some (lit "00042")).
Proof. vm_compute. reflexivity. Qed.

(** C4 as stated fails: this URL ends in the digits "123", which the
    wording makes the locationId, and the code gives null because no slash
    stands before them. *)
Lemma digits_after_letters_null :
  claimed_location_id ascii_decimal (lit "https://example.com/stores/abc123")
    = Some (lit "123") /\
  location_id ascii_decimal (lit "https://example.com/stores/abc123")
    = Ok None.
Proof. split; vm_compute; reflexivity. Qed.

Lemma no_address_block_record_witness :
  exists r,
    extract ascii_decimal ascii_upper dec_float page_no_block url_42 = Some r
    /\ lookup r "city" = Some VNone
    /\ lookup r "publicName" = Some (VStr (lit "Bondi")).
Proof.
  destruct (@no_address_block_record ascii_decimal ascii_upper decimal
              dec_float page_no_block url_42 eq_refl eq_refl) as [H1 H2].
  destruct H1 as [r E].
  - intros c s H. vm_compute in H. discriminate.
  - intros c s H. vm_compute in H. discriminate.
  - exists r. split; [exact E|].
    destruct (H2 r E) as (lat & lng & _ & _ & ->).
    split; vm_compute; reflexivity.
Defined.

Lemma cleaning_keeps_clean_text_witness :
  clean_text ascii_decimal (lit "Bondi Junction") = lit "Bondi Junction".
Proof.
  refine (proj1 (@cleaning_keeps_clean_text ascii_decimal
                   (lit "Bondi Junction") _)).
  repeat split; vm_compute; reflexivity.
Defined.

(** Outside clean strings a second cleaning can still change the text:
    removing the inner tag of [<<b>a>] leaves the tag [<a>]. *)
Lemma cleaning_twice_differs :
  clean_text ascii_decimal (lit "<<b>a>") = lit "<a>" /\
  clean_text ascii_decimal (lit "<a>") = [].
Proof. split; vm_compute; reflexivity. Qed.

Lemma coordinates_independent_witness :
  exists r,
    extract ascii_decimal ascii_upper dec_float page_lat_only url_42 = Some r
    /\ lookup r "latitude" = Some (VFloat (true, 3387%N, 2))
    /\ lookup r "longitude" = Some VNone.
Proof.
  eexists. split; [vm_compute; reflexivity|].
  refine (proj1 (@coordinates_independent ascii_decimal ascii_upper decimal
                   dec_float page_lat_only url_42 _ 45%N (lit "33.87")
                   (true, 3387%N, 2) _ _) _ _);
    try (vm_compute; reflexivity).
  unfold occurs. vm_compute. discriminate.
Defined.

Lemma empty_name_not_found_witness :
  extract ascii_decimal ascii_upper dec_float page_empty_name url_42 = None.
Proof.
  apply (proj1 (@empty_name_not_found ascii_decimal ascii_upper decimal
                  dec_float page_empty_name url_42)).
  vm_compute. reflexivity.
Defined.

(** A street address inside the address block ends the extraction with the
    IndexError of [match.group(1)] on the pattern [.*]. *)
Lemma street_address_raises :
  get_store_details_body ascii_decimal ascii_upper dec_float page_street
    url_42 = Raise IndexError.
Proof. vm_compute. reflexivity. Qed.

(** Two pairs in the hours container give two entries, in page order. *)
Lemma two_days :
  @trading_hours ascii_decimal ascii_upper decimal page_hours
  = Ok [trading_hour ascii_upper (lit "Mon") (lit "9-5");
        trading_hour ascii_upper (lit "Tue") (lit "10-4")].
Proof. vm_compute. reflexivity. Qed.


Lemma street_address_index_error_witness :
  get_store_details ascii_decimal ascii_upper dec_float
    (one_page page_street) false (Some url_42)
  = (None, [Get url_42; Err (DErrProcessing (Some url_42) IndexError)]).
Proof.
  refine (proj2 (@street_address_index_error ascii_decimal ascii_upper
                   decimal dec_float (one_page page_street) false url_42
                   page_street eq_refl _)).
  vm_compute. reflexivity.
Defined.

Lemma record_schema_witness :
  exists r,
    extract ascii_decimal ascii_upper dec_float page_no_block url_42 = Some r
    /\ map fst r = record_keys
    /\ lookup r "locationId" = Some (VStr (lit "00042")).
Proof.
  eexists. split; [vm_compute; reflexivity|].
  split.
  - refine (proj1 (@record_schema ascii_decimal ascii_upper decimal
                     dec_float page_no_block url_42 _ _)).
    vm_compute. reflexivity.
  - vm_compute. reflexivity.
Defined.

Lemma body_raises_only_witness :
  (IndexError = IndexError /\
   truthy (street_address ascii_decimal page_street) = true) \/
  (IndexError = ValueError /\
   truthy (street_address ascii_decimal page_street) = false /\
   truthy (capture ascii_decimal heading_re page_street true) = true /\
   (unparseable dec_float (capture ascii_decimal lat_re page_street true) \/
    unparseable dec_float (capture ascii_decimal lng_re page_street true))).
Proof.
  refine (@body_raises_only ascii_decimal ascii_upper decimal dec_float
            page_street url_42 IndexError _).
  vm_compute. reflexivity.
Defined.

Lemma fetch_error_lines_witness :
  is_fetch_error URLError = true /\
  exists x, Some url_42 = Some x /\ Some url_42 = Some x /\
            urlopen {| sitemap_exists := true; sitemap_locs := Ok [];
                       urlopen := fun _ => Raise URLError |} x
            = Raise URLError.
Proof.
  refine (@fetch_error_lines ascii_decimal ascii_upper decimal dec_float
            {| sitemap_exists := true; sitemap_locs := Ok [];
               urlopen := fun _ => Raise URLError |}
            false (Some url_42) (Some url_42) URLError _).
  vm_compute. right. left. reflexivity.
Defined.


(** ** Verbosity *)

Lemma fst_get_store_details_verbose (uni_decimal : char -> bool)
    (upper : str -> str) (F : Type) (py_float : str -> option F)
    (env : world) (verbose : bool) (url : option str) :
  fst (get_store_details uni_decimal upper py_float env verbose url)
  = fst (get_store_details uni_decimal upper py_float env false url).
Proof.
  unfold get_store_details. destruct url as [x|]; [|reflexivity].
  destruct (urlopen env x) as [html|e]; simpl; [|reflexivity].
  destruct (get_store_details_body _ _ _ html x); reflexivity.
Qed.

Lemma successes_verbose (uni_decimal : char -> bool) (upper : str -> str)
    (F : Type) (py_float : str -> option F) (env : world) (verbose : bool)
    (urls : list (option str)) :
  successes uni_decimal upper py_float env verbose urls
  = successes uni_decimal upper py_float env false urls.
Proof.
  unfold successes. induction urls as [|url urls IH]; simpl; auto.
  now rewrite IH, fst_get_store_details_verbose.
Qed.

(** X16.  The verbose flag only adds diagnostics: with and without it a
    run ends with the same status, makes the same requests and pauses, and
    prints the same list. *)
Theorem verbose_only_diagnostics (uni_decimal : char -> bool)
    (upper : str -> str) (F : Type) (py_float : str -> option F)
    (env : world) :
  let loud := main uni_decimal upper py_float env true in
  let quiet := main uni_decimal upper py_float env false in
  fst loud = fst quiet /\
  requests (snd loud) = requests (snd quiet) /\
  pauses (snd loud) = pauses (snd quiet) /\
  printed (snd loud) = printed (snd quiet).
Proof.
  cbv zeta.
  destruct (main_summary uni_decimal upper py_float env true)
    as (A0 & A1 & A2 & A3 & _).
  destruct (main_summary uni_decimal upper py_float env false)
    as (B0 & B1 & B2 & B3 & _).
  cbv zeta in *.
  rewrite A0, A1, A2, A3, B0, B1, B2, B3.
  now rewrite (successes_verbose uni_decimal upper py_float env true).
Qed.

(** ** More runs of the model *)

Lemma sort_stores_sorted_witness :
  Permutation
    [sample_store (F:=decimal) (Some (lit "0005"));
     sample_store (Some (lit "0002"))]
    [sample_store (Some (lit "0002")); sample_store (Some (lit "0005"))] /\
  StronglySorted (@id_le decimal)
    [sample_store (Some (lit "0002")); sample_store (Some (lit "0005"))].
Proof.
  refine (@sort_stores_sorted decimal _ _ _).
  vm_compute. reflexivity.
Defined.

Lemma printed_records_witness :
  exists stores,
    In stores (printed (snd (main ascii_decimal ascii_upper dec_float
                               (one_page page_bondi) false))) /\
    StronglySorted (@id_le decimal) stores.
Proof.
  eexists. split; [vm_compute; left; reflexivity|].
  refine (proj1 (proj2 (@printed_records ascii_decimal ascii_upper decimal
                          dec_float (one_page page_bondi) false _ _))).
  vm_compute. left. reflexivity.
Defined.

Lemma extracted_text_trimmed_witness :
  starts_clean (lit "02 9000 0000") = true /\
  starts_clean (rev (lit "02 9000 0000")) = true /\
  (true = true -> single_spaced (lit "02 9000 0000") = true).
Proof.
  refine (@extracted_text_trimmed ascii_decimal phone_re
            (span (lit "telephone") (lit "  02   9000 <b>0000</b> "))
            1 true (lit "02 9000 0000") _).
  vm_compute. reflexivity.
Defined.

Lemma cleaning_idempotent_without_tag_witness :
  clean_text ascii_decimal
    (clean_text ascii_decimal (lit " <b>Bondi</b>   Junction "))
  = clean_text ascii_decimal (lit " <b>Bondi</b>   Junction ").
Proof.
  refine (@cleaning_idempotent_without_tag ascii_decimal
            (lit " <b>Bondi</b>   Junction ") _).
  vm_compute. reflexivity.
Defined.

Lemma record_text_fields_witness :
  exists r t,
    extract ascii_decimal ascii_upper dec_float
      (heading (lit " Bondi   <b>Junction</b> ")) url_42 = Some r /\
    lookup r "publicName" = Some (VStr t) /\
    single_spaced t = true.
Proof.
  eexists. eexists. split; [vm_compute; reflexivity|].
  split; [vm_compute; reflexivity|].
  refine (proj2 (proj2 (@record_text_fields ascii_decimal ascii_upper
                          decimal dec_float
                          (heading (lit " Bondi   <b>Junction</b> "))
                          url_42 _ "publicName" _ _ _ _)));
    try (vm_compute; reflexivity).
  left. reflexivity.
Defined.

Lemma record_whatever_url_witness :
  exists r2,
    extract ascii_decimal ascii_upper dec_float page_bondi
      (lit "https://example.com/stores/7") = Some r2 /\
    forall key, key <> "url"%string -> key <> "locationId"%string ->
      lookup r2 key
      = lookup (store_data (F:=decimal) (Some (lit "00042"))
                  (Some (lit "Bondi")) None None None None None VNone VNone
                  [] url_42) key.
Proof.
  refine (@record_whatever_url ascii_decimal ascii_upper decimal dec_float
            page_bondi url_42 (lit "https://example.com/stores/7") _ _).
  vm_compute. reflexivity.
Defined.

Lemma location_id_final_newline_witness :
  location_id ascii_decimal (url_42 ++ [newline])
  = location_id ascii_decimal url_42.
Proof.
  exact (@location_id_final_newline ascii_decimal (fun c _ => eq_refl)
           url_42 eq_refl).
Defined.


Lemma absent_markers_witness :
  exists r,
    extract ascii_decimal ascii_upper dec_float page_bondi url_42 = Some r /\
    lookup r "phoneNumber" = Some VNone.
Proof.
  eexists. split; [vm_compute; reflexivity|].
  refine (proj1 (@absent_markers ascii_decimal ascii_upper decimal dec_float
                   page_bondi url_42 _ _) _).
  - vm_compute. reflexivity.
  - unfold occurs. vm_compute. discriminate.
Defined.
